(** * A shallow embedding of the betting state machine and the payout
    computation of [src/game.rs] (ungar).

    Representation choices:
    - [u32] chip amounts are [N]; the checked arithmetic of a debug build is
      written out ([add_u32], [sub_u32], [mul_u32] panic on overflow), and
      casts [as i32] wrap ([u32_as_i32]);
    - [u8] counters, [PlayerId] and [usize] indices are [nat];
    - the fixed-size arrays [[T; MAX_PLAYERS]], [[T; MAX_ROUNDS]] and the
      [Vec]s of [GameInfo] are lists read with [get] (a default outside the
      list) and written with stdpp's list [insert]; in a well-formed state
      every index used is in range, as the Rust indexing requires;
    - a call either returns a value ([Ret]), returns [Err] (the Rust
      [Result::Err]), panics ([Panic]), provably loops forever ([Hang]), or,
      for the side-pot loop whose iteration count is bounded by a fuel
      argument, runs out of fuel ([OutOfFuel]);
    - the hand-strength evaluator is external: [get_payout] receives, for
      every player, the rank class that [evaluator.evaluate] (or the one and
      two card special cases) computes from the hole and board cards, as a
      [nat] under the order of [EvalClass]; [0] stands for
      [EvalClass::HighCard { high_rank: Rank::Two }], the least class. *)

From Stdlib Require Import ZArith String.
From stdpp Require Import base list.

Open Scope N_scope.

(** ** Outcomes of a Rust call *)

Inductive outcome (A : Type) : Type :=
| Ret (a : A)
| Err (msg : string)
| Panic (msg : string)
| Hang
| OutOfFuel.
Arguments Ret {A} a.
Arguments Err {A} msg.
Arguments Panic {A} msg.
Arguments Hang {A}.
Arguments OutOfFuel {A}.

Global Instance outcome_ret : MRet outcome := fun A a => Ret a.
Global Instance outcome_bind : MBind outcome := fun A B f m =>
  match m with
  | Ret a => f a
  | Err e => Err e
  | Panic e => Panic e
  | Hang => Hang
  | OutOfFuel => OutOfFuel
  end.

Definition is_ret {A} (o : outcome A) : bool :=
  match o with Ret _ => true | _ => false end.

(** ** Machine integers *)

Definition u32_max : N := 4294967295.

Definition add_u32 (a b : N) : outcome N :=
  if a + b <=? u32_max then Ret (a + b) else Panic "attempt to add with overflow".

Definition sub_u32 (a b : N) : outcome N :=
  if b <=? a then Ret (a - b) else Panic "attempt to subtract with overflow".

Definition mul_u32 (a b : N) : outcome N :=
  if a * b <=? u32_max then Ret (a * b) else Panic "attempt to multiply with overflow".

Definition i32_in_range (z : Z) : bool := ((-2147483648 <=? z) && (z <=? 2147483647))%Z.

Definition chk_i32 (z : Z) : outcome Z :=
  if i32_in_range z then Ret z else Panic "arithmetic overflow".

(** [x as i32] for a [u32] [x]: reinterpretation of the 32 bits. *)
Definition u32_as_i32 (x : N) : Z :=
  if x <? 2147483648 then Z.of_N x else (Z.of_N x - 4294967296)%Z.

(** ** Arrays *)

Definition get {A} (d : A) (l : list A) (i : nat) : A := default d (l !! i).

Notation "l @ i" := (get 0%N l i) (at level 20, only parsing).

(** ** Constants, actions and the rules of a game *)

Definition MAX_PLAYERS : nat := 22.
Definition MAX_ROUNDS : nat := 4.
Definition MAX_NUM_ACTIONS : nat := 32.

Inductive BettingType := Limit | NoLimit.

Inductive Action := Fold | Call | Raise (r : N).

Definition action_eqb (a b : Action) : bool :=
  match a, b with
  | Fold, Fold | Call, Call => true
  | Raise x, Raise y => x =? y
  | _, _ => false
  end.

Definition PlayerId := nat.

Record GameInfo := {
  starting_stacks : list N;
  blinds : list N;
  raise_sizes : list N;
  betting_type : BettingType;
  num_players : nat;
  num_rounds : nat;
  max_raises : list nat;
  first_player : list PlayerId;
  num_suits : nat;
  num_ranks : nat;
  num_hole_cards : nat;
  num_board_cards : list nat
}.

Record GameState := {
  hand_id : N;
  max_spent : N;
  min_no_limit_raise_to : N;
  spent : list N;
  stack_player : list N;
  sum_round_spent : list (list N);
  action : list (list (option Action));
  acting_player : list (list PlayerId);
  active_player : PlayerId;
  num_actions : list nat;
  round : nat;
  finished : bool;
  players_folded : list bool
}.

(** Field updates of a [GameState] (the Rust code assigns the fields of a
    cloned state in place). *)
Section Setters.
Variable s : GameState.
Definition set_max_spent v := {| hand_id := hand_id s; max_spent := v; min_no_limit_raise_to := min_no_limit_raise_to s; spent := spent s; stack_player := stack_player s; sum_round_spent := sum_round_spent s; action := action s; acting_player := acting_player s; active_player := active_player s; num_actions := num_actions s; round := round s; finished := finished s; players_folded := players_folded s |}.
Definition set_min_raise v := {| hand_id := hand_id s; max_spent := max_spent s; min_no_limit_raise_to := v; spent := spent s; stack_player := stack_player s; sum_round_spent := sum_round_spent s; action := action s; acting_player := acting_player s; active_player := active_player s; num_actions := num_actions s; round := round s; finished := finished s; players_folded := players_folded s |}.
Definition set_spent v := {| hand_id := hand_id s; max_spent := max_spent s; min_no_limit_raise_to := min_no_limit_raise_to s; spent := v; stack_player := stack_player s; sum_round_spent := sum_round_spent s; action := action s; acting_player := acting_player s; active_player := active_player s; num_actions := num_actions s; round := round s; finished := finished s; players_folded := players_folded s |}.
Definition set_sum_round_spent v := {| hand_id := hand_id s; max_spent := max_spent s; min_no_limit_raise_to := min_no_limit_raise_to s; spent := spent s; stack_player := stack_player s; sum_round_spent := v; action := action s; acting_player := acting_player s; active_player := active_player s; num_actions := num_actions s; round := round s; finished := finished s; players_folded := players_folded s |}.
Definition set_action v := {| hand_id := hand_id s; max_spent := max_spent s; min_no_limit_raise_to := min_no_limit_raise_to s; spent := spent s; stack_player := stack_player s; sum_round_spent := sum_round_spent s; action := v; acting_player := acting_player s; active_player := active_player s; num_actions := num_actions s; round := round s; finished := finished s; players_folded := players_folded s |}.
Definition set_acting_player v := {| hand_id := hand_id s; max_spent := max_spent s; min_no_limit_raise_to := min_no_limit_raise_to s; spent := spent s; stack_player := stack_player s; sum_round_spent := sum_round_spent s; action := action s; acting_player := v; active_player := active_player s; num_actions := num_actions s; round := round s; finished := finished s; players_folded := players_folded s |}.
Definition set_active_player v := {| hand_id := hand_id s; max_spent := max_spent s; min_no_limit_raise_to := min_no_limit_raise_to s; spent := spent s; stack_player := stack_player s; sum_round_spent := sum_round_spent s; action := action s; acting_player := acting_player s; active_player := v; num_actions := num_actions s; round := round s; finished := finished s; players_folded := players_folded s |}.
Definition set_num_actions v := {| hand_id := hand_id s; max_spent := max_spent s; min_no_limit_raise_to := min_no_limit_raise_to s; spent := spent s; stack_player := stack_player s; sum_round_spent := sum_round_spent s; action := action s; acting_player := acting_player s; active_player := active_player s; num_actions := v; round := round s; finished := finished s; players_folded := players_folded s |}.
Definition set_round v := {| hand_id := hand_id s; max_spent := max_spent s; min_no_limit_raise_to := min_no_limit_raise_to s; spent := spent s; stack_player := stack_player s; sum_round_spent := sum_round_spent s; action := action s; acting_player := acting_player s; active_player := active_player s; num_actions := num_actions s; round := v; finished := finished s; players_folded := players_folded s |}.
Definition set_finished v := {| hand_id := hand_id s; max_spent := max_spent s; min_no_limit_raise_to := min_no_limit_raise_to s; spent := spent s; stack_player := stack_player s; sum_round_spent := sum_round_spent s; action := action s; acting_player := acting_player s; active_player := active_player s; num_actions := num_actions s; round := round s; finished := v; players_folded := players_folded s |}.
Definition set_players_folded v := {| hand_id := hand_id s; max_spent := max_spent s; min_no_limit_raise_to := min_no_limit_raise_to s; spent := spent s; stack_player := stack_player s; sum_round_spent := sum_round_spent s; action := action s; acting_player := acting_player s; active_player := active_player s; num_actions := num_actions s; round := round s; finished := finished s; players_folded := v |}.
End Setters.

(** [a[i][j] = v] on a two-dimensional array. *)
Definition insert2 {A} (i j : nat) (v : A) (m : list (list A)) : list (list A) :=
  <[i := <[j := v]> (get [] m i)]> m.

Definition get2 {A} (d : A) (m : list (list A)) (i j : nat) : A := get d (get [] m i) j.

(** ** [GameState::new] *)

(** One iteration of the blind-posting loop of [GameState::new]. *)
Definition post_blind (gi : GameInfo) (acc : list N * list N * N * list bool) (i : nat)
    : list N * list N * N * list bool :=
  let '(sp, srs0, ms, folded) := acc in
  let b := blinds gi @ i in
  (<[i := b]> sp, <[i := b]> srs0, (if ms <? b then b else ms), <[i := false]> folded).

(** [stack_player[i] = *s] for [(i, s)] in [starting_stacks.iter().enumerate()]. *)
Definition set_stack (st : list N) (ix : nat * N) : list N := <[ix.1 := ix.2]> st.

Definition new_state (gi : GameInfo) (hid : N) : outcome GameState :=
  let '(sp, srs0, ms, folded) :=
    fold_left (post_blind gi) (seq 0 (num_players gi))
      (replicate MAX_PLAYERS 0, replicate MAX_PLAYERS 0, 0, replicate MAX_PLAYERS true) in
  mn ← match betting_type gi with
       | NoLimit => if 0 <? ms then mul_u32 ms 2 else Ret 1
       | Limit => Ret 0
       end;
  let stacks :=
    fold_left set_stack (zip (seq 0 (length (starting_stacks gi))) (starting_stacks gi))
      (replicate MAX_PLAYERS 0) in
  Ret {| hand_id := hid;
         max_spent := ms;
         min_no_limit_raise_to := mn;
         spent := sp;
         stack_player := stacks;
         sum_round_spent := <[0%nat := srs0]> (replicate MAX_ROUNDS (replicate MAX_PLAYERS 0));
         action := replicate MAX_ROUNDS (replicate MAX_NUM_ACTIONS None);
         acting_player := replicate MAX_ROUNDS (replicate MAX_NUM_ACTIONS 0%nat);
         active_player := get 0%nat (first_player gi) 0;
         num_actions := replicate MAX_ROUNDS 0%nat;
         round := 0;
         finished := false;
         players_folded := folded |}.

(** ** Queries *)

Definition has_folded (s : GameState) (p : PlayerId) : bool := get true (players_folded s) p.

Definition current_player (s : GameState) : outcome PlayerId :=
  if finished s then Err "state is finished so there is no active player"
  else Ret (active_player s).

(** A player who can still act: not folded and not all-in. *)
Definition can_act (s : GameState) (p : PlayerId) : bool :=
  negb (has_folded s p) && (spent s @ p <? stack_player s @ p).

Definition num_active_players (gi : GameInfo) (s : GameState) : nat :=
  length (filter (fun i => can_act s i = true) (seq 0 (num_players gi))).

Definition num_folded (gi : GameInfo) (s : GameState) : nat :=
  length (filter (fun i => has_folded s i = true) (seq 0 (num_players gi))).

(** The loop of [num_called], over the actions of round [r] from index
    [k - 1] down to [0]. *)
Fixpoint num_called_loop (s : GameState) (r k count : nat) : outcome nat :=
  match k with
  | O => Ret count
  | S i =>
      let player := get2 0%nat (acting_player s) r i in
      let count' := if spent s @ player <? stack_player s @ player then S count else count in
      match get2 None (action s) r i with
      | None => Panic "called `Option::unwrap()` on a `None` value"
      | Some (Raise _) => Ret count'
      | Some Call => num_called_loop s r i count'
      | Some Fold => num_called_loop s r i count
      end
  end.

Definition num_called (gi : GameInfo) (s : GameState) : outcome nat :=
  num_called_loop s (round s) (get 0%nat (num_actions s) (round s)) 0.

(** [loop { p = (p + 1) % n; if q p { break } }]: the positions visited
    repeat with period [n], so [n] steps decide whether the loop stops. *)
Fixpoint next_player_loop (n : nat) (q : nat -> bool) (p fuel : nat) : outcome PlayerId :=
  match fuel with
  | O => Hang
  | S f => let p' := ((p + 1) mod n)%nat in
           if q p' then Ret p' else next_player_loop n q p' f
  end.

Definition next_player (gi : GameInfo) (s : GameState) : outcome PlayerId :=
  if finished s then Err "state is finished so there is no active player"
  else if (num_players gi =? 0)%nat then Panic "attempt to calculate the remainder with a divisor of zero"
  else next_player_loop (num_players gi) (can_act s) (active_player s) (num_players gi).

Definition is_raise (a : option Action) : bool :=
  match a with Some (Raise _) => true | _ => false end.

Definition num_raises (s : GameState) : nat :=
  length (filter (fun i => is_raise (get2 None (action s) (round s) i) = true)
                 (seq 0 (get 0%nat (num_actions s) (round s)))).

Definition raise_range (gi : GameInfo) (s : GameState) : N * N :=
  if finished s then (0, 0)
  else if (get 0%nat (max_raises gi) (round s) <=? num_raises s)%nat then (0, 0)
  else if (MAX_NUM_ACTIONS <? get 0%nat (num_actions s) (round s) + num_players gi)%nat then (0, 0)
  else if (num_active_players gi s <=? 1)%nat then (0, 0)
  else match betting_type gi with
       | Limit => (0, 0)
       | NoLimit =>
           let max_raise := stack_player s @ active_player s in
           if stack_player s @ active_player s <? min_no_limit_raise_to s then
             if stack_player s @ active_player s <=? max_spent s then (0, 0)
             else (max_raise, max_raise)
           else (min_no_limit_raise_to s, max_raise)
       end.

Definition is_valid_action (gi : GameInfo) (s : GameState) (a : Action) : bool :=
  if finished s then false
  else match a with
       | Fold => negb (spent s @ active_player s =? stack_player s @ active_player s)
       | Call => true
       | Raise r =>
           if (get 0%nat (max_raises gi) (round s) <=? num_raises s)%nat then false
           else match betting_type gi with
                | Limit => r =? raise_sizes gi @ round s
                | NoLimit => let '(mn, mx) := raise_range gi s in (mn <=? r) && (r <=? mx)
                end
       end.

(** ** [GameState::apply_action_no_cards] *)

(** [.unwrap()] on a [Result]. *)
Definition unwrap {A} (o : outcome A) : outcome A :=
  match o with
  | Err _ => Panic "called `Result::unwrap()` on an `Err` value"
  | o => o
  end.

(** The chip effects of the action (the [match action] of
    [apply_action_no_cards]); [new] is the cloned state with the action
    already logged. *)
Definition apply_chips (gi : GameInfo) (s new : GameState) (player : PlayerId) (a : Action)
    : outcome GameState :=
  match a with
  | Fold => Ret (set_players_folded new (<[player := true]> (players_folded new)))
  | Call =>
      let v := if stack_player new @ player <? max_spent new
               then stack_player new @ player else max_spent new in
      Ret (set_sum_round_spent (set_spent new (<[player := v]> (spent new)))
             (insert2 (round s) player v (sum_round_spent new)))
  | Raise r =>
      new' ← match betting_type gi with
             | NoLimit =>
                 r2 ← mul_u32 r 2;
                 d ← sub_u32 r2 (max_spent new);
                 let new1 := if min_no_limit_raise_to new <? d then set_min_raise new d else new in
                 Ret (set_max_spent new1 r)
             | Limit =>
                 t ← add_u32 (max_spent new) (raise_sizes gi @ round new);
                 if stack_player new @ player <? t
                 then Ret (set_max_spent new (stack_player new @ player))
                 else Ret (set_max_spent new t)
             end;
      Ret (set_sum_round_spent (set_spent new' (<[player := max_spent new']> (spent new')))
             (insert2 (round new') player (max_spent new') (sum_round_spent new')))
  end.

(** Lines 452-508: the checks, the action log, the chip effects and the
    move to the next player. *)
Definition act_step (gi : GameInfo) (s : GameState) (a : Action) : outcome GameState :=
  if finished s then Err "cannot apply action to finished state"
  else if (MAX_NUM_ACTIONS <=? get 0%nat (num_actions s) (round s))%nat then
    Err "cannot apply action to state: already at max actions for this round"
  else if negb (is_valid_action gi s a) then Err "cannot apply an invalid action"
  else
    player ← unwrap (current_player s);
    let r := round s in
    let k := get 0%nat (num_actions s) r in
    let new := set_num_actions
                 (set_acting_player (set_action s (insert2 r k (Some a) (action s)))
                    (insert2 r k player (acting_player s)))
                 (<[r := S k]> (num_actions s)) in
    new ← apply_chips gi s new player a;
    nxt ← unwrap (next_player gi s);
    Ret (set_active_player new nxt).

(** The largest blind, or [1] if no blind exceeds [1]. *)
Definition max_blind (gi : GameInfo) : N :=
  fold_left (fun m i => if m <? blinds gi @ i then blinds gi @ i else m)
    (seq 0 (num_players gi)) 1.

(** [while !q(a) { a = (a + 1) % n }]: after the first test the positions
    repeat with period [n], so [n + 1] tests decide whether it stops. *)
Fixpoint skip_loop (n : nat) (q : nat -> bool) (a fuel : nat) : outcome PlayerId :=
  match fuel with
  | O => Hang
  | S f => if q a then Ret a
           else if (n =? 0)%nat then Panic "attempt to calculate the remainder with a divisor of zero"
           else skip_loop n q ((a + 1) mod n)%nat f
  end.

(** Lines 510-535: end of the hand, or of the round. *)
Definition close_round (gi : GameInfo) (new : GameState) : outcome GameState :=
  let n := num_players gi in
  if (n <=? num_folded gi new + 1)%nat then Ret (set_finished new true)
  else
    nc ← num_called gi new;
    if (num_active_players gi new <=? nc)%nat then
      if (1 <? num_active_players gi new)%nat then
        if (round new + 1 <? num_rounds gi)%nat then
          let new1 := set_round new (S (round new)) in
          mn ← add_u32 (max_blind gi) (max_spent new1);
          a ← skip_loop n (can_act new1) (get 0%nat (first_player gi) (round new1)) (S n);
          Ret (set_active_player (set_min_raise new1 mn) a)
        else Ret (set_finished new true)
      else if (num_rounds gi =? 0)%nat then Panic "attempt to subtract with overflow"
      else Ret (set_round (set_finished new true) (num_rounds gi - 1)%nat)
    else Ret new.

Definition apply_action_no_cards (gi : GameInfo) (s : GameState) (a : Action) : outcome GameState :=
  mid ← act_step gi s a;
  close_round gi mid.

(** Applying a sequence of actions from a state. *)
Fixpoint apply_actions (gi : GameInfo) (s : GameState) (l : list Action) : outcome GameState :=
  match l with
  | [] => Ret s
  | a :: l' => s' ← apply_action_no_cards gi s a; apply_actions gi s' l'
  end.

(** ** [GameState::get_payout] *)

(** The sum of the other players' spends in the one-player-left branch
    ([value] is a [u32]). *)
Fixpoint sum_others (s : GameState) (player : PlayerId) (l : list nat) (value : N) : outcome N :=
  match l with
  | [] => Ret value
  | i :: l' => if (i =? player)%nat then sum_others s player l' value
               else v ← add_u32 value (spent s @ i); sum_others s player l' v
  end.

(** Lines 564-600: the players with a nonzero spend, packed at the front of
    [rank] and [spent] in seat order; [None] for a folded player.  The
    result is [(rank, spent, players_left, player_idx)]. *)
Definition gather (s : GameState) (rk : PlayerId -> nat) (player n : nat)
    : list (option nat) * list N * nat * Z :=
  fold_left (fun '(rank, sp, pl, pidx) i =>
      if spent s @ i =? 0 then (rank, sp, pl, pidx)
      else
        let '(rank', pidx') :=
          if has_folded s i then (<[pl := None]> rank, pidx)
          else (<[pl := Some (rk i)]> rank, if (i =? player)%nat then Z.of_nat pl else pidx) in
        (rank', <[pl := spent s @ i]> sp, S pl, pidx'))
    (seq 0 n) (replicate n None, replicate n 0, 0%nat, (-1)%Z).

(** Lines 615-630: the layer size (smallest remaining spend), the best
    rank and the number of players holding it. *)
Fixpoint scan (rank : list (option nat)) (sp : list N) (l : list nat)
    (size : N) (win : nat) (nw : Z) : outcome (N * nat * Z) :=
  match l with
  | [] => Ret (size, win, nw)
  | i :: l' =>
      if sp @ i =? 0 then Panic "assertion failed: spent[i as usize] > 0"
      else
        let size' := if sp @ i <? size then sp @ i else size in
        match get None rank i with
        | Some r =>
            if (win <? r)%nat then scan rank sp l' size' r 1
            else if (r =? win)%nat then scan rank sp l' size' win (nw + 1)%Z
            else scan rank sp l' size' win nw
        | None => scan rank sp l' size' win nw
        end
  end.

(** The result of the compaction loop (lines 638-659): the function
    returns, or the loop goes on with the new [spent], [player_idx] and
    [players_left]. *)
Inductive compact_result :=
| Returned (v : Z)
| Continue (sp : list N) (pidx pl : nat).

Fixpoint compact (sp : list N) (size : N) (pidx : nat) (value : Z) (l : list nat) (newl : nat)
    : outcome compact_result :=
  match l with
  | [] => Ret (Continue sp pidx newl)
  | i :: l' =>
      d ← sub_u32 (sp @ i) size;
      let sp := <[i := d]> sp in
      if d =? 0 then
        if (i =? pidx)%nat then Ret (Returned value)
        else compact sp size pidx value l' newl
      else
        let pidx := if (i =? pidx)%nat then i else pidx in
        let sp := if (i =? newl)%nat then sp else <[newl := sp @ i]> sp in
        compact sp size pidx value l' (S newl)
  end.

(** The side-pot loop (lines 609-661), run for at most [fuel] iterations.
    [rank] is never written in the loop. *)
Fixpoint payout_loop (fuel : nat) (rank : list (option nat)) (sp : list N)
    (pidx pl : nat) (value : Z) : outcome Z :=
  match fuel with
  | O => OutOfFuel
  | S f =>
      '(size, win, nw) ← scan rank sp (seq 0 pl) u32_max 0 0;
      value' ← match rank !! pidx with
               | None => Panic "index out of bounds"
               | Some None => Panic "called `Option::unwrap()` on a `None` value"
               | Some (Some r) =>
                   if (r =? win)%nat then
                     t ← chk_i32 (u32_as_i32 size * (Z.of_nat pl - nw))%Z;
                     if (nw =? 0)%Z then Panic "attempt to divide by zero"
                     else chk_i32 (value + Z.quot t nw)%Z
                   else chk_i32 (value - u32_as_i32 size)%Z
               end;
      c ← compact sp size pidx value' (seq 0 pl) 0;
      match c with
      | Returned v => Ret v
      | Continue sp' pidx' pl' => payout_loop f rank sp' pidx' pl' value'
      end
  end.

(** [rk i] is the rank class of player [i]'s hole cards with the board. *)
Definition get_payout (gi : GameInfo) (s : GameState) (rk : PlayerId -> nat)
    (fuel : nat) (player : PlayerId) : outcome Z :=
  if has_folded s player then chk_i32 (- u32_as_i32 (spent s @ player))%Z
  else if negb (finished s) then
    Panic "cannot calculate payout when the hand is not over or the player has not folded!"
  else if (num_folded gi s + 1 =? num_players gi)%nat then
    value ← sum_others s player (seq 0 (num_players gi)) 0;
    if value <=? 2147483647 then Ret (Z.of_N value)
    else Panic "called `Result::unwrap()` on an `Err` value"
  else
    let '(rank, sp, pl, pidx) := gather s rk player (num_players gi) in
    if negb (1 <? pl)%nat then Panic "assertion failed: players_left > 1"
    else if (pidx <=? -1)%Z then Panic "assertion failed: player_idx > -1"
    else payout_loop fuel rank sp (Z.to_nat pidx) pl 0.

(** The payouts of the players of [l] added up: the left side of the
    chip-conservation statement. *)
Fixpoint sum_payouts_list (gi : GameInfo) (s : GameState) (rk : PlayerId -> nat)
    (fuel : nat) (l : list PlayerId) : outcome Z :=
  match l with
  | [] => Ret 0%Z
  | p :: l' => v ← get_payout gi s rk fuel p; t ← sum_payouts_list gi s rk fuel l'; Ret (v + t)%Z
  end.

Definition sum_payouts (gi : GameInfo) (s : GameState) (rk : PlayerId -> nat) (fuel : nat) : outcome Z :=
  sum_payouts_list gi s rk fuel (seq 0 (num_players gi)).

(** The spends of the players of [l], and those of all but [w]. *)
Definition spent_total (s : GameState) (l : list PlayerId) : N :=
  foldr (fun i acc => spent s @ i + acc) 0 l.

Definition spent_others (s : GameState) (w : PlayerId) (l : list PlayerId) : N :=
  foldr (fun i acc => if (i =? w)%nat then acc else spent s @ i + acc) 0 l.

(** ** The side-pot rule as the specification words it

    Modelled from the specification of the payout computation (section
    4.3), to be compared with [payout_loop]: each contestant is
    [(player, remaining commitment, rank if not folded)]; a layer is the
    smallest remaining commitment; the players holding the best rank
    among the non-folded contestants split it; every remaining commitment
    drops by the layer and exhausted contestants leave. *)
Definition layer_size (cs : list (nat * N * option nat)) : N :=
  foldr (fun '(_, c, _) m => N.min c m) u32_max cs.

Definition best_rank (cs : list (nat * N * option nat)) : nat :=
  foldr (fun '(_, _, r) m => match r with Some x => Nat.max x m | None => m end) 0%nat cs.

Definition num_best (cs : list (nat * N * option nat)) : nat :=
  length (filter (fun '(_, _, r) => r = Some (best_rank cs)) cs).

Fixpoint spec_layers (fuel : nat) (q : nat) (cs : list (nat * N * option nat)) (value : Z)
    : option Z :=
  match fuel with
  | O => None
  | S f =>
      let layer := layer_size cs in
      let w := Z.of_nat (num_best cs) in
      let k := Z.of_nat (length cs) in
      let value' :=
        if existsb (fun '(p, _, r) => (p =? q)%nat && bool_decide (r = Some (best_rank cs))) cs
        then (value + Z.of_N layer * (k - w) / w)%Z
        else (value - Z.of_N layer)%Z in
      let cs' := filter (fun '(_, c, _) => c <> 0)
                   (map (fun '(p, c, r) => (p, c - layer, r)) cs) in
      if existsb (fun '(p, _, _) => (p =? q)%nat) cs' then spec_layers f q cs' value'
      else Some value'
  end.

(** The contestants of a finished state: every player with a nonzero
    spend, in seat order. *)
Definition contestants (gi : GameInfo) (s : GameState) (rk : PlayerId -> nat)
    : list (nat * N * option nat) :=
  map (fun i => (i, spent s @ i, if has_folded s i then None else Some (rk i)))
    (filter (fun i => spent s @ i <> 0) (seq 0 (num_players gi))).

Definition spec_payout (gi : GameInfo) (s : GameState) (rk : PlayerId -> nat) (q : PlayerId)
    : option Z :=
  spec_layers (S (num_players gi)) q (contestants gi s rk) 0.

(** ** Concrete hands *)

Definition mk_info (stacks bl : list N) (bt : BettingType) (rounds : nat)
    (maxr : list nat) (first : list PlayerId) : GameInfo :=
  {| starting_stacks := stacks; blinds := bl; raise_sizes := replicate rounds 0;
     betting_type := bt; num_players := length stacks; num_rounds := rounds;
     max_raises := maxr; first_player := first; num_suits := 4; num_ranks := 13;
     num_hole_cards := 2; num_board_cards := replicate rounds 0%nat |}.

(** The state reached by a sequence of actions from the start of a hand
    (a dummy state if some action is refused). *)
Definition dummy_state : GameState :=
  {| hand_id := 0; max_spent := 0; min_no_limit_raise_to := 0; spent := [];
     stack_player := []; sum_round_spent := []; action := []; acting_player := [];
     active_player := 0%nat; num_actions := []; round := 0%nat; finished := true;
     players_folded := [] |}.

Definition play (gi : GameInfo) (l : list Action) : GameState :=
  match (s0 ← new_state gi 0; apply_actions gi s0 l) with
  | Ret s => s
  | _ => dummy_state
  end.

(** The state of a successful step, or [dummy_state]. *)
Definition ret_state (o : outcome GameState) : GameState :=
  match o with
  | Ret s => s
  | _ => dummy_state
  end.

(** Three players, stacks 5, 100 and 100, no blinds, one no-limit round:
    player 0 raises all-in to 5, player 1 raises to 20, player 2 calls. *)
Definition sidepot_info : GameInfo := mk_info [5; 100; 100] [0; 0; 0] NoLimit 1 [5%nat] [0%nat].
Definition sidepot_actions : list Action := [Raise 5; Raise 20; Call].
Definition sidepot_state : GameState := play sidepot_info sidepot_actions.
(** Player 0 holds the best hand, player 1 the second best. *)
Definition sidepot_rank (i : PlayerId) : nat := match i with 0 => 3 | 1 => 2 | _ => 1 end%nat.

(** Three players post 1 each and call; players 0 and 1 tie. *)
Definition tie_info : GameInfo := mk_info [100; 100; 100] [1; 1; 1] NoLimit 1 [5%nat] [0%nat].
Definition tie_state : GameState := play tie_info [Call; Call; Call].
Definition tie_rank (i : PlayerId) : nat := match i with 0 | 1 => 2 | _ => 1 end%nat.

(** Three players, blinds 1 and 2, player 2 first to act raises to 10
    and player 0 folds; the hand goes on. *)
Definition fold_info : GameInfo := mk_info [100; 100; 100] [1; 2; 0] NoLimit 2 [3%nat; 3%nat] [2%nat; 0%nat].
Definition fold_state : GameState := play fold_info [Raise 10; Fold].

(** Both players are all-in by their blinds. *)
Definition allin_info : GameInfo := mk_info [1; 2] [1; 2] NoLimit 1 [3%nat] [0%nat].
Definition allin_state : GameState := play allin_info [].

(** Three players raise in turn to 1, 2, ..., 30. *)
Definition raises_info : GameInfo := mk_info [1000; 1000; 1000] [0; 0; 0] NoLimit 1 [100%nat] [0%nat].
Definition raises_state : GameState :=
  play raises_info (map (fun k => Raise (N.of_nat k)) (seq 1 30)).

(** ** [GameInfo::total_board_cards] and [GameState::pot_total] *)

(** [for i in 0..=round { total += self.num_board_cards[i] }] on a [u8]
    total; indexing the [Vec] out of its range panics. *)
Fixpoint total_board_loop (nbc : list nat) (l : list nat) (total : nat) : outcome nat :=
  match l with
  | [] => Ret total
  | i :: l' =>
      match nbc !! i with
      | None => Panic "index out of bounds"
      | Some v => if (total + v <=? 255)%nat then total_board_loop nbc l' (total + v)
                  else Panic "attempt to add with overflow"
      end
  end.

Definition total_board_cards (gi : GameInfo) (round : nat) : outcome nat :=
  total_board_loop (num_board_cards gi) (seq 0 (S round)) 0.

(** [for i in 0..num_players { total += self.spent[i] }] on a [u32]. *)
Fixpoint pot_total_loop (s : GameState) (l : list nat) (total : N) : outcome N :=
  match l with
  | [] => Ret total
  | i :: l' => t ← add_u32 total (spent s @ i); pot_total_loop s l' t
  end.

Definition pot_total (gi : GameInfo) (s : GameState) : outcome N :=
  pot_total_loop s (seq 0 (num_players gi)) 0.

(** ** Cards and the deal

    A card is given by the values [rank() as u32] and [suit() as u32]
    of its rank and suit. The variants of [Rank::ALL_VARIANTS] and
    [Suit::ALL_VARIANTS] come from the [poker] crate; [generate_deck]
    receives the lists of their values, in the crate's order. *)
Record Card := mkCard { card_rank : nat; card_suit : nat }.

Global Instance Card_eq_dec : EqDecision Card.
Proof. intros [r1 s1] [r2 s2]. unfold Decision. decide equality; apply Nat.eq_dec. Defined.

(** [Rank::ALL_VARIANTS.iter().take(num_ranks).cartesian_product(
    Suit::ALL_VARIANTS.iter().take(num_suits)).map(Card::new)]: the first
    iterator is the outer one. *)
Definition generate_deck (rank_variants suit_variants : list nat) (gi : GameInfo) : list Card :=
  flat_map (fun r => map (fun su => mkCard r su) (take (num_suits gi) suit_variants))
    (take (num_ranks gi) rank_variants).

(** [for _ in 0..k { h.push(deck[c]); c += 1; }] *)
Fixpoint push_cards (deck : list Card) (h : list Card) (c k : nat) : outcome (list Card * nat) :=
  match k with
  | O => Ret (h, c)
  | S k' =>
      match deck !! c with
      | None => Panic "index out of bounds"
      | Some x => push_cards deck (h ++ [x]) (S c) k'
      end
  end.

(** The hole-card loop of [deal_hole_cards_and_board_cards]; the array
    [hole_cards] is indexed only inside the inner loop. *)
Fixpoint deal_holes (deck : list Card) (nh : nat) (l : list nat) (hole : list (list Card)) (c : nat)
    : outcome (list (list Card) * nat) :=
  match l with
  | [] => Ret (hole, c)
  | i :: l' =>
      if (nh =? 0)%nat then deal_holes deck nh l' hole c
      else match hole !! i with
           | None => Panic "index out of bounds"
           | Some h => '(h', c') ← push_cards deck h c nh; deal_holes deck nh l' (<[i := h']> hole) c'
           end
  end.

(** [GameInfo::deal_hole_cards_and_board_cards], from the shuffled deck
    [deck] that [generate_shuffled_deck] returns. *)
Definition deal_hole_cards_and_board_cards (gi : GameInfo) (deck : list Card)
    : outcome (list (list Card) * list Card) :=
  '(hole, c) ← deal_holes deck (num_hole_cards gi) (seq 0 (num_players gi))
                 (replicate MAX_PLAYERS []) 0;
  if (length (num_board_cards gi) =? 0)%nat then Panic "attempt to subtract with overflow"
  else
    tb ← total_board_cards gi ((length (num_board_cards gi) - 1) mod 256);
    '(board, _) ← push_cards deck [] c tb;
    Ret (hole, board).

(** ** [NoBuckets] of [card_abstraction.rs] *)

Record NoBuckets := {
  nb_num_suits : nat;
  nb_num_ranks : nat;
  nb_num_board_cards : nat;
  nb_num_hole_cards : nat
}.

Definition NoBuckets_new (gi : GameInfo) (round : nat) : outcome NoBuckets :=
  tb ← total_board_cards gi round;
  Ret {| nb_num_suits := num_suits gi; nb_num_ranks := num_ranks gi;
         nb_num_board_cards := tb; nb_num_hole_cards := num_hole_cards gi |}.

(** [cards[i].rank() as u32 * num_suits as u32 + cards[i].suit() as u32] *)
Definition card_value (cards : list Card) (i : nat) (ns : N) : outcome N :=
  match cards !! i with
  | None => Panic "index out of bounds"
  | Some c => v ← mul_u32 (N.of_nat (card_rank c)) ns; add_u32 v (N.of_nat (card_suit c))
  end.

(** The hole-card loop: [if i > 0 { bucket *= ns * nr } bucket += ...]. *)
Fixpoint hole_bucket (ns nr : N) (hole : list Card) (l : list nat) (bucket : N) : outcome N :=
  match l with
  | [] => Ret bucket
  | i :: l' =>
      b1 ← (if (0 <? i)%nat then m ← mul_u32 ns nr; mul_u32 bucket m else Ret bucket);
      v ← card_value hole i ns;
      b2 ← add_u32 b1 v;
      hole_bucket ns nr hole l' b2
  end.

(** The board-card loop: [bucket *= ns * nr; bucket += ...]. *)
Fixpoint board_bucket (ns nr : N) (board : list Card) (l : list nat) (bucket : N) : outcome N :=
  match l with
  | [] => Ret bucket
  | i :: l' =>
      m ← mul_u32 ns nr;
      b1 ← mul_u32 bucket m;
      v ← card_value board i ns;
      b2 ← add_u32 b1 v;
      board_bucket ns nr board l' b2
  end.

Definition NoBuckets_get_bucket (nb : NoBuckets) (board hole : list Card) : outcome N :=
  let ns := N.of_nat (nb_num_suits nb) in
  let nr := N.of_nat (nb_num_ranks nb) in
  b ← hole_bucket ns nr hole (seq 0 (nb_num_hole_cards nb)) 0;
  board_bucket ns nr board (seq 0 (nb_num_board_cards nb)) b.

(** ** [action_abstraction.rs] and [GameState::abstract_raise_to_real]

    The [f32] of [AbstractRaiseType::PotRatio] is a type parameter [F];
    [(max_spent as f32 * r) as u32] is the function [pot_ratio], which the
    properties below leave arbitrary. *)
Inductive AbstractRaiseType (F : Type) := AllIn | PotRatio (r : F) | Fixed (i : N).
Arguments AllIn {F}.
Arguments PotRatio {F} r.
Arguments Fixed {F} i.

Inductive RaiseRoundConfig := NotAllowed | Always | Before (i : N).

Record AbstractRaise (F : Type) := {
  raise_type : AbstractRaiseType F;
  round_config : list RaiseRoundConfig
}.
Arguments raise_type {F} a.
Arguments round_config {F} a.

Record ActionAbstraction (F : Type) := { possible_raises : list (AbstractRaise F) }.
Arguments possible_raises {F} a.

Section Abstraction.
Context {F : Type} (pot_ratio : N -> F -> N).

(** [RaiseRoundConfig::Always => {}], [Before(i) if i > num_raises => {}]. *)
Definition config_allows (cfg : RaiseRoundConfig) (nr : nat) : bool :=
  match cfg with
  | Always => true
  | Before i => N.of_nat nr <? i
  | NotAllowed => false
  end.

Definition abstract_raise_to_real (gi : GameInfo) (s : GameState) (ar : AbstractRaise F)
    : outcome (option Action) :=
  match round_config ar !! round s with
  | None => Panic "index out of bounds"
  | Some cfg =>
      if negb (config_allows cfg (num_raises s)) then Ret None
      else
        raise ← match raise_type ar with
                | AllIn => Ret (Raise (stack_player s @ active_player s))
                | Fixed i =>
                    match betting_type gi with
                    | NoLimit => m ← add_u32 (max_spent s) i; Ret (Raise m)
                    | Limit => Ret (Raise i)
                    end
                | PotRatio r => Ret (Raise (pot_ratio (max_spent s) r))
                end;
        if is_valid_action gi s raise then Ret (Some raise) else Ret None
  end.

(** The loop of [get_actions] that collects the abstract raises allowed in
    the round; its result is not used. *)
Fixpoint collect_raises (l : list (AbstractRaise F)) (round nr : nat) (acc : list (AbstractRaise F))
    : outcome (list (AbstractRaise F)) :=
  match l with
  | [] => Ret acc
  | ar :: l' =>
      match round_config ar !! round with
      | None => Panic "index out of bounds"
      | Some cfg => collect_raises l' round nr (if config_allows cfg nr then acc ++ [ar] else acc)
      end
  end.

Definition get_actions (aa : ActionAbstraction F) (gi : GameInfo) (s : GameState)
    : outcome (list Action) :=
  let actions := (if is_valid_action gi s Fold then [Fold] else []) ++
                 (if is_valid_action gi s Call then [Call] else []) in
  _ ← collect_raises (possible_raises aa) (round s) (num_raises s) [];
  Ret actions.

End Abstraction.

(** A hold'em-like game: two players, board cards [0; 3; 1; 1]. *)
Definition holdem_info : GameInfo :=
  {| starting_stacks := [100; 100]; blinds := [1; 2]; raise_sizes := [2; 2; 4; 4];
     betting_type := NoLimit; num_players := 2; num_rounds := 4;
     max_raises := [3%nat; 4%nat; 4%nat; 4%nat]; first_player := [1%nat; 0%nat; 0%nat; 0%nat];
     num_suits := 4; num_ranks := 13; num_hole_cards := 2;
     num_board_cards := [0%nat; 3%nat; 1%nat; 1%nat] |}.

(** The hole cards once players [0..k] have been dealt: player [j] holds
    the [nh] cards from position [j * nh]. *)
Definition hole_slices (deck : list Card) (nh k : nat) : list (list Card) :=
  (fun j => if (j <? k)%nat then take nh (drop (j * nh) deck) else []) <$> seq 0 MAX_PLAYERS.

(** The value of one card in [NoBuckets::get_bucket], and the number the
    whole loop computes when nothing overflows: the card values read as the
    digits, most significant first, of a number in base [num_suits * num_ranks]. *)
Definition card_digit (ns : N) (c : Card) : N := N.of_nat (card_rank c) * ns + N.of_nat (card_suit c).

Definition digits_val (B : N) (ds : list N) : N := fold_left (fun acc d => acc * B + d) ds 0.

Definition card_ok (ns nr : nat) (c : Card) : Prop := (card_rank c < nr)%nat /\ (card_suit c < ns)%nat.

(** The order the no-limit betting keeps between the spends, the largest
    spend and the smallest raise-to. *)
Definition nl_order (s : GameState) : Prop :=
  (forall p, spent s @ p <= max_spent s) /\ max_spent s <= min_no_limit_raise_to s.

(** Concrete inputs: a hold'em flop hand and its bucketing, and an all-in raise. *)

Definition holdem_flop_hole : list Card := [mkCard 12 3; mkCard 0 0].
Definition holdem_flop_board : list Card := [mkCard 5 1; mkCard 7 2; mkCard 9 0].
Definition holdem_flop_buckets : NoBuckets :=
  {| nb_num_suits := 4; nb_num_ranks := 13; nb_num_board_cards := 3; nb_num_hole_cards := 2 |}.

Definition allin_raise : AbstractRaise N :=
  {| raise_type := AllIn; round_config := [Always; Always; Always; Always] |}.

(** The best rank and the number of its holders, as the scan of lines
    615-630 accumulates them over the rank slots ([win], [num_winners]),
    and the largest rank of a list of slots. *)
Fixpoint best_fold (rs : list (option nat)) (win : nat) (nw : Z) : nat * Z :=
  match rs with
  | [] => (win, nw)
  | Some r :: rs' =>
      if (win <? r)%nat then best_fold rs' r 1
      else if (r =? win)%nat then best_fold rs' win (nw + 1)%Z
      else best_fold rs' win nw
  | None :: rs' => best_fold rs' win nw
  end.

Fixpoint max_some (rs : list (option nat)) : nat :=
  match rs with
  | [] => 0%nat
  | Some r :: rs' => Nat.max r (max_some rs')
  | None :: rs' => max_some rs'
  end.

(** * Properties *)

(** Closing a closed, decidable goal by evaluation. *)
Ltac eval_close :=
  vm_compute;
  first [ reflexivity | lia | let H := fresh in intro H; discriminate H ].

(** The same on each part of a conjunction. *)
Ltac conj_eval := repeat match goal with |- _ /\ _ => split end; eval_close.

(** Case analysis on the comparisons that guard a branch. *)
Ltac case_cmp :=
  match goal with
  | |- context [if (?x <=? ?y)%nat then _ else _] => destruct (Nat.leb_spec x y)
  | |- context [if (?x <? ?y)%nat then _ else _] => destruct (Nat.ltb_spec x y)
  | |- context [if (?x =? ?y)%nat then _ else _] => destruct (Nat.eqb_spec x y)
  | |- context [if (?x <=? ?y)%N then _ else _] => destruct (N.leb_spec x y)
  | |- context [if (?x <? ?y)%N then _ else _] => destruct (N.ltb_spec x y)
  | |- context [if (?x =? ?y)%N then _ else _] => destruct (N.eqb_spec x y)
  end.

Lemma i32_in_range_true (z : Z) :
  (-2147483648 <= z <= 2147483647)%Z -> i32_in_range z = true.
Proof.
  intros [H1 H2]. unfold i32_in_range.
  apply andb_true_intro; split; apply Z.leb_le; lia.
Qed.

Lemma chk_i32_ok (z : Z) :
  (-2147483648 <= z <= 2147483647)%Z -> chk_i32 z = Ret z.
Proof. intros H. unfold chk_i32. now rewrite i32_in_range_true. Qed.

Lemma u32_as_i32_small (x : N) : x <= 2147483647 -> u32_as_i32 x = Z.of_N x.
Proof. intros H. unfold u32_as_i32. destruct (N.ltb_spec x 2147483648); [reflexivity | lia]. Qed.

(** ** Fold legality *)

(** C8: in a state that is not finished, folding is refused exactly when
    the active player has spent their whole stack. *)
Theorem is_valid_fold_iff_all_in (gi : GameInfo) (s : GameState) :
  finished s = false ->
  (is_valid_action gi s Fold = false <->
   spent s @ active_player s = stack_player s @ active_player s).
Proof.
  intros Hfin. unfold is_valid_action. rewrite Hfin.
  destruct (N.eqb_spec (spent s @ active_player s) (stack_player s @ active_player s)); simpl.
  - tauto.
  - split; [discriminate | tauto].
Qed.

Lemma is_valid_fold_iff_all_in_witness :
  finished allin_state = false /\
  (is_valid_action allin_info allin_state Fold = false <->
   spent allin_state @ active_player allin_state = stack_player allin_state @ active_player allin_state).
Proof.
  split; [vm_compute; reflexivity |].
  apply (is_valid_fold_iff_all_in allin_info allin_state). vm_compute; reflexivity.
Defined.

(** ** Payout of a folded player *)



(** ** Loud failures *)

(** C7 (as stated, refuted): the hand of [fold_state] is not over, yet the
    payout of the folded player 0 is returned instead of aborting. *)
Lemma payout_unfinished_counterexample :
  finished fold_state = false /\
  get_payout fold_info fold_state sidepot_rank 0%nat 0%nat = Ret (-1)%Z.
Proof. conj_eval. Qed.

(** C7 (amended): on a state that is not finished, [get_payout] panics for
    a player who has not folded, while a folded player's payout, minus
    their spend, is returned whether or not the hand is over (for a spend
    that an [i32] holds); on a finished state [current_player] returns an
    error. *)
Theorem payout_unfinished_panics :
  (forall gi s rk fuel p,
     finished s = false -> has_folded s p = false ->
     get_payout gi s rk fuel p =
       Panic "cannot calculate payout when the hand is not over or the player has not folded!") /\
  (forall (gi : GameInfo) (s : GameState) (rk : PlayerId -> nat) (fuel : nat) (p : PlayerId),
     has_folded s p = true -> (spent s @ p <= 2147483647) ->
     get_payout gi s rk fuel p = Ret (- Z.of_N (spent s @ p))%Z) /\
  (forall s, finished s = true ->
     current_player s = Err "state is finished so there is no active player").
Proof.
  split; [| split].
  - intros gi s rk fuel p Hfin Hf. unfold get_payout. now rewrite Hf, Hfin.
  - intros gi s rk fuel p Hf Hb. unfold get_payout.
    rewrite Hf, u32_as_i32_small by exact Hb. apply chk_i32_ok. lia.
  - intros s Hfin. unfold current_player. now rewrite Hfin.
Qed.

Lemma payout_unfinished_panics_witness :
  get_payout sidepot_info (play sidepot_info [Raise 5]) sidepot_rank 0%nat 1%nat =
    Panic "cannot calculate payout when the hand is not over or the player has not folded!" /\
  (finished fold_state = false /\
  get_payout fold_info fold_state sidepot_rank 0%nat 0%nat = Ret (- Z.of_N (spent fold_state @ 0%nat))%Z) /\
  current_player sidepot_state = Err "state is finished so there is no active player".
Proof.
  split; [| split; [split |]].
  - apply (proj1 payout_unfinished_panics); vm_compute; reflexivity.
  - vm_compute; reflexivity.
  - apply (proj1 (proj2 payout_unfinished_panics)); vm_compute; [reflexivity | discriminate].
  - apply (proj2 (proj2 payout_unfinished_panics)); vm_compute; reflexivity.
Defined.

(** ** The no-limit raise range *)

(** C4 (as stated, refuted): after thirty raises in a three-player round,
    raises are still under their cap, three players can act and one more
    action fits in the round's log, yet the range is [(0, 0)] and not
    [(min_no_limit_raise_to, stack)]. *)
Lemma raise_range_capacity_counterexample :
  betting_type raises_info = NoLimit /\ finished raises_state = false /\
  (num_raises raises_state < get 0%nat (max_raises raises_info) (round raises_state))%nat /\
  (2 <= num_active_players raises_info raises_state)%nat /\
  (get 0%nat (num_actions raises_state) (round raises_state) + 1 <= MAX_NUM_ACTIONS)%nat /\
  min_no_limit_raise_to raises_state <= stack_player raises_state @ active_player raises_state /\
  raise_range raises_info raises_state = (0, 0) /\
  raise_range raises_info raises_state <>
    (min_no_limit_raise_to raises_state, stack_player raises_state @ active_player raises_state).
Proof. conj_eval. Qed.

(** C4 (amended): for a no-limit game and a state that is not finished,
    the range is [(0, 0)] when the raise cap of the round is reached, when
    at most one player can act, or when the actions of the round plus one
    per player exceed [MAX_NUM_ACTIONS]; otherwise it is
    [(min_no_limit_raise_to, stack)] for the active player's [stack],
    except that a stack below [min_no_limit_raise_to] gives [(0, 0)] if
    [max_spent] reaches it and [(stack, stack)] if not. *)
Theorem raise_range_no_limit (gi : GameInfo) (s : GameState) :
  betting_type gi = NoLimit -> finished s = false ->
  (((get 0%nat (max_raises gi) (round s) <= num_raises s)%nat \/
    (num_active_players gi s <= 1)%nat \/
    (MAX_NUM_ACTIONS < get 0%nat (num_actions s) (round s) + num_players gi)%nat) ->
   raise_range gi s = (0, 0)) /\
  ((num_raises s < get 0%nat (max_raises gi) (round s))%nat ->
   (2 <= num_active_players gi s)%nat ->
   (get 0%nat (num_actions s) (round s) + num_players gi <= MAX_NUM_ACTIONS)%nat ->
   (min_no_limit_raise_to s <= stack_player s @ active_player s ->
    raise_range gi s = (min_no_limit_raise_to s, stack_player s @ active_player s)) /\
   (stack_player s @ active_player s < min_no_limit_raise_to s ->
    stack_player s @ active_player s <= max_spent s -> raise_range gi s = (0, 0)) /\
   (stack_player s @ active_player s < min_no_limit_raise_to s ->
    max_spent s < stack_player s @ active_player s ->
    raise_range gi s = (stack_player s @ active_player s, stack_player s @ active_player s))).
Proof.
  intros Hbt Hfin. unfold raise_range. rewrite Hfin, Hbt. split.
  - intros H. repeat case_cmp; first [reflexivity | lia].
  - intros H1 H2 H3. repeat split; intros; repeat case_cmp; first [reflexivity | lia].
Qed.

Lemma raise_range_no_limit_witness :
  betting_type raises_info = NoLimit /\ finished raises_state = false /\
  (MAX_NUM_ACTIONS < get 0%nat (num_actions raises_state) (round raises_state)
                      + num_players raises_info)%nat /\
  raise_range raises_info raises_state = (0, 0).
Proof.
  assert (Hbt : betting_type raises_info = NoLimit) by eval_close.
  assert (Hfin : finished raises_state = false) by eval_close.
  assert (Hcap : (MAX_NUM_ACTIONS < get 0%nat (num_actions raises_state) (round raises_state)
                                   + num_players raises_info)%nat) by eval_close.
  split; [exact Hbt | split; [exact Hfin | split; [exact Hcap |]]].
  apply (proj1 (raise_range_no_limit raises_info raises_state Hbt Hfin)).
  right; right; exact Hcap.
Defined.

(** ** The stack bound *)

Lemma get_insert {A} (d : A) (l : list A) (i j : nat) (v : A) :
  get d (<[i := v]> l) j = if decide (i = j /\ i < length l)%nat then v else get d l j.
Proof.
  unfold get. destruct (decide (i = j /\ i < length l)%nat) as [[-> Hlt] | Hn].
  - now rewrite list_lookup_insert_eq.
  - destruct (decide (i = j)) as [-> | Hij].
    + rewrite list_insert_ge; [reflexivity | lia].
    + now rewrite list_lookup_insert_ne.
Qed.

(** Every entry of [sp] is at most the matching entry of [st]. *)
Definition list_le (sp st : list N) : Prop := forall p, sp @ p <= st @ p.

Lemma get_insert_le (sp st : list N) (i : nat) (v : N) :
  list_le sp st -> v <= st @ i -> list_le (<[i := v]> sp) st.
Proof.
  intros H Hv p. rewrite get_insert.
  destruct (decide _) as [[-> _] | _]; auto.
Qed.

Lemma get_replicate_zero (m p : nat) : replicate m 0 @ p = 0.
Proof.
  unfold get. destruct (decide (p < m)%nat).
  - now rewrite lookup_replicate_2.
  - rewrite (proj1 (lookup_replicate_None m 0 p)); [reflexivity | lia].
Qed.

(** The spends posted by [GameState::new]. *)
Lemma post_blind_spent (gi : GameInfo) (l : list nat) acc :
  (fold_left (post_blind gi) l acc).1.1.1 =
  fold_left (fun sp i => <[i := blinds gi @ i]> sp) l acc.1.1.1.
Proof.
  revert acc. induction l as [|i l IH]; intros [[[sp srs0] ms] folded]; [reflexivity |].
  simpl. now rewrite IH.
Qed.

Lemma fold_insert_get (f : nat -> N) (m a : nat) (sp : list N) (p : nat) :
  (a + m <= length sp)%nat ->
  (fold_left (fun sp i => <[i := f i]> sp) (seq a m) sp) @ p =
  if decide (a <= p < a + m)%nat then f p else sp @ p.
Proof.
  revert a sp. induction m as [|m IH]; intros a sp Hlen; simpl.
  - destruct (decide _); [lia | reflexivity].
  - rewrite IH by (rewrite length_insert; lia). rewrite get_insert.
    repeat destruct (decide _) as [? | ?]; try lia; try reflexivity.
    match goal with H : _ = _ /\ _ |- _ => destruct H as [-> _] end; reflexivity.
Qed.

Lemma fold_set_stack_get (l : list N) (a : nat) (st : list N) (p : nat) :
  (a + length l <= length st)%nat ->
  (fold_left set_stack (zip (seq a (length l)) l) st) @ p =
  if decide (a <= p < a + length l)%nat then l @ (p - a) else st @ p.
Proof.
  revert a st. induction l as [|x l IH]; intros a st Hlen; simpl.
  - destruct (decide _); [lia | reflexivity].
  - simpl in Hlen. rewrite IH by (unfold set_stack; simpl; rewrite length_insert; lia).
    unfold set_stack; simpl. rewrite get_insert.
    repeat destruct (decide _) as [? | ?]; try lia.
    + replace (p - a)%nat with (S (p - S a)) by lia. reflexivity.
    + match goal with H : _ = _ /\ _ |- _ => destruct H as [-> _] end.
      rewrite Nat.sub_diag. reflexivity.
Qed.

Definition stack_bound (s : GameState) : Prop := list_le (spent s) (stack_player s).

Lemma new_state_stack_bound (gi : GameInfo) (hid : N) (s : GameState) :
  length (starting_stacks gi) = num_players gi -> (num_players gi <= MAX_PLAYERS)%nat ->
  (forall i, (i < num_players gi)%nat -> blinds gi @ i <= starting_stacks gi @ i) ->
  new_state gi hid = Ret s -> stack_bound s.
Proof.
  intros Hlen Hmax Hb Hnew p. unfold new_state in Hnew.
  pose proof (post_blind_spent gi (seq 0 (num_players gi))
                (replicate MAX_PLAYERS 0, replicate MAX_PLAYERS 0, 0, replicate MAX_PLAYERS true)) as Hsp.
  destruct (fold_left (post_blind gi) _ _) as [[[sp srs0] ms] folded]. cbn [fst snd] in Hsp.
  unfold mbind, outcome_bind in Hnew.
  repeat case_match; try discriminate.
  all: injection Hnew as <-; cbn [spent stack_player]; subst sp.
  all: rewrite fold_insert_get by (rewrite length_replicate; lia).
  all: rewrite fold_set_stack_get by (simpl; unfold MAX_PLAYERS in Hmax; lia).
  all: rewrite Hlen, Nat.sub_0_r.
  all: destruct (decide _); [apply Hb; lia | rewrite get_replicate_zero; lia].
Qed.

Lemma raise_range_max (gi : GameInfo) (s : GameState) (mn mx : N) :
  raise_range gi s = (mn, mx) -> mx = 0 \/ mx = stack_player s @ active_player s.
Proof. unfold raise_range. repeat case_match; intros [= <- <-]; auto. Qed.

(** An accepted raise never goes beyond the raiser's stack. *)
Lemma valid_raise_le_stack (gi : GameInfo) (s : GameState) (r : N) :
  betting_type gi = NoLimit -> is_valid_action gi s (Raise r) = true ->
  r <= stack_player s @ active_player s.
Proof.
  intros Hbt Hv. unfold is_valid_action in Hv. rewrite Hbt in Hv.
  destruct (finished s); [discriminate |].
  destruct (_ <=? _)%nat; [discriminate |].
  destruct (raise_range gi s) as [mn mx] eqn:Hrr.
  apply raise_range_max in Hrr.
  apply andb_prop in Hv as [_ Hv]. apply N.leb_le in Hv.
  destruct Hrr as [-> | ->]; lia.
Qed.

(** Reducing field reads of updated states, and nothing else. *)
Ltac simpl_state := cbn -[N.le N.lt get insert list_le].

Lemma apply_chips_bound (gi : GameInfo) (s new new' : GameState) (a : Action) :
  stack_bound new -> stack_player new = stack_player s ->
  is_valid_action gi s a = true ->
  apply_chips gi s new (active_player s) a = Ret new' ->
  stack_bound new' /\ stack_player new' = stack_player new.
Proof.
  intros Hb Hst Hv Hc. unfold stack_bound in *. destruct a as [| | r]; simpl in Hc.
  - injection Hc as <-. split; [exact Hb | reflexivity].
  - injection Hc as <-. simpl_state. split; [| reflexivity].
    apply get_insert_le; [exact Hb |]. case_cmp; lia.
  - unfold mbind, outcome_bind in Hc.
    destruct (betting_type gi) eqn:Hbt.
    + destruct (add_u32 _ _) as [t | | | |]; try discriminate.
      destruct (N.ltb_spec (stack_player new @ active_player s) t);
        simpl in Hc; injection Hc as <-; simpl_state; (split; [| reflexivity]);
        apply get_insert_le; auto; simpl_state; lia.
    + pose proof (valid_raise_le_stack gi s r Hbt Hv) as Hr.
      destruct (mul_u32 _ _); try discriminate.
      destruct (sub_u32 _ _); try discriminate.
      destruct (_ <? _); simpl in Hc; injection Hc as <-; simpl_state; (split; [| reflexivity]);
        apply get_insert_le; auto; rewrite Hst; exact Hr.
Qed.

Lemma act_step_bound (gi : GameInfo) (s mid : GameState) (a : Action) :
  stack_bound s -> act_step gi s a = Ret mid ->
  stack_bound mid /\ stack_player mid = stack_player s.
Proof.
  intros Hb H. unfold act_step in H.
  destruct (finished s) eqn:Hfin; [discriminate |].
  destruct (_ <=? _)%nat; [discriminate |].
  destruct (is_valid_action gi s a) eqn:Hv; [| discriminate]. simpl in H.
  unfold current_player in H. rewrite Hfin in H. simpl in H.
  unfold mbind, outcome_bind in H.
  destruct (apply_chips _ _ _ _ _) as [new' | | | |] eqn:Hc; try discriminate.
  apply apply_chips_bound in Hc as [Hb' Hst']; [| exact Hb | reflexivity | exact Hv].
  destruct (unwrap (next_player gi s)); try discriminate.
  injection H as <-. split; [exact Hb' | exact Hst'].
Qed.

Lemma close_round_same (gi : GameInfo) (mid s' : GameState) :
  close_round gi mid = Ret s' -> spent s' = spent mid /\ stack_player s' = stack_player mid.
Proof.
  unfold close_round, mbind, outcome_bind. intros H.
  repeat case_match; simplify_eq; split; reflexivity.
Qed.

(** C9: when the blinds do not exceed the starting stacks, no player's
    spend exceeds their stack in the state built by [GameState::new], and
    every accepted action keeps it so. *)
Theorem stack_bound_invariant :
  (forall gi hid s,
     length (starting_stacks gi) = num_players gi -> (num_players gi <= MAX_PLAYERS)%nat ->
     (forall i, (i < num_players gi)%nat -> blinds gi @ i <= starting_stacks gi @ i) ->
     new_state gi hid = Ret s -> stack_bound s) /\
  (forall gi s a s',
     stack_bound s -> apply_action_no_cards gi s a = Ret s' -> stack_bound s').
Proof.
  split.
  - intros gi hid s. apply new_state_stack_bound.
  - intros gi s a s' Hb H. unfold apply_action_no_cards, mbind, outcome_bind in H.
    destruct (act_step gi s a) as [mid | | | |] eqn:Hs; try discriminate.
    apply act_step_bound in Hs as [Hmid _]; [| exact Hb].
    apply close_round_same in H as [Hsp Hst].
    intros p. rewrite Hsp, Hst. apply Hmid.
Qed.

Lemma stack_bound_invariant_witness :
  stack_bound (play sidepot_info []) /\ stack_bound (play sidepot_info [Raise 5]).
Proof.
  assert (Hb : forall i, (i < num_players sidepot_info)%nat ->
                 blinds sidepot_info @ i <= starting_stacks sidepot_info @ i).
  { intros i Hi. cbn in Hi. do 3 (destruct i as [| i]; [eval_close |]). lia. }
  assert (H0 : stack_bound (play sidepot_info [])).
  { apply (proj1 stack_bound_invariant sidepot_info 0 (play sidepot_info [])); try eval_close.
    exact Hb. }
  split; [exact H0 |].
  apply (proj2 stack_bound_invariant sidepot_info (play sidepot_info []) (Raise 5)); [exact H0 |].
  eval_close.
Defined.

(** ** Round advance *)

Lemma apply_chips_round (gi : GameInfo) (s new new' : GameState) (p : PlayerId) (a : Action) :
  apply_chips gi s new p a = Ret new' -> round new' = round new /\ finished new' = finished new.
Proof.
  destruct a as [| | r]; simpl; unfold mbind, outcome_bind; intros H;
    repeat case_match; simplify_eq; split; reflexivity.
Qed.

Lemma act_step_round (gi : GameInfo) (s mid : GameState) (a : Action) :
  act_step gi s a = Ret mid -> round mid = round s /\ finished mid = false.
Proof.
  intros H. unfold act_step in H.
  destruct (finished s) eqn:Hfin; [discriminate |].
  destruct (_ <=? _)%nat; [discriminate |].
  destruct (is_valid_action gi s a); [| discriminate]. simpl in H.
  unfold current_player in H. rewrite Hfin in H. simpl in H.
  unfold mbind, outcome_bind in H.
  destruct (apply_chips _ _ _ _ _) as [new' | | | |] eqn:Hc; try discriminate.
  apply apply_chips_round in Hc as [Hr Hf].
  destruct (unwrap (next_player gi s)); try discriminate.
  injection H as <-. cbn in *. split; congruence.
Qed.

Lemma max_blind_fold (b : nat -> N) (l : list nat) (m0 : N) :
  let m := fold_left (fun m i => if m <? b i then b i else m) l m0 in
  m0 <= m /\ (forall i, In i l -> b i <= m) /\ (m = m0 \/ exists i, In i l /\ b i = m).
Proof.
  revert m0. induction l as [| i l IH]; intros m0; simpl.
  - split; [lia | split; [tauto | now left]].
  - destruct (IH (if m0 <? b i then b i else m0)) as (H1 & H2 & H3).
    case_cmp; (split; [lia | split]).
    + intros j [<- | Hj]; [lia | auto].
    + destruct H3 as [-> | (j & Hj & Hbj)]; right; eauto.
    + intros j [<- | Hj]; [lia | auto].
    + destruct H3 as [-> | (j & Hj & Hbj)]; [left | right]; eauto.
Qed.

(** [max_blind] is the largest blind, or [1] when no blind exceeds [1]. *)
Lemma max_blind_spec (gi : GameInfo) :
  1 <= max_blind gi /\
  (forall i, (i < num_players gi)%nat -> blinds gi @ i <= max_blind gi) /\
  (max_blind gi = 1 \/ exists i, (i < num_players gi)%nat /\ blinds gi @ i = max_blind gi).
Proof.
  unfold max_blind.
  destruct (max_blind_fold (fun i => blinds gi @ i) (seq 0 (num_players gi)) 1) as (H1 & H2 & H3).
  split; [exact H1 | split].
  - intros i Hi. apply H2. apply in_seq. lia.
  - destruct H3 as [H3 | (i & Hi & Hb)]; [now left | right].
    exists i. apply in_seq in Hi. split; [lia | exact Hb].
Qed.

Lemma skip_loop_spec (n : nat) (q : nat -> bool) (a fuel b : nat) :
  skip_loop n q a fuel = Ret b ->
  exists k, b = Nat.iter k (fun p => ((p + 1) mod n)%nat) a /\ q b = true /\
            forall j, (j < k)%nat -> q (Nat.iter j (fun p => ((p + 1) mod n)%nat) a) = false.
Proof.
  revert a. induction fuel as [| f IH]; intros a H; simpl in H; [discriminate |].
  destruct (q a) eqn:Hq.
  - injection H as <-. exists 0%nat. split; [reflexivity | split; [exact Hq | intros; lia]].
  - destruct (n =? 0)%nat; [discriminate |].
    destruct (IH _ H) as (k & -> & Hb & Hbefore).
    exists (S k). rewrite Nat.iter_succ_r. split; [reflexivity | split; [exact Hb |]].
    intros [| j] Hj; [exact Hq |]. rewrite Nat.iter_succ_r. apply Hbefore. lia.
Qed.

(** C5: after an accepted action that leaves at least two players in the
    hand, once every player who can still act has called: with more than
    one such player and a round left, the round advances by one, the
    minimum raise becomes the largest blind (at least [1]) plus [max_spent],
    and the turn goes to the round's first player, skipping those who
    cannot act; with at most one such player the hand jumps to the last
    round and is finished; with no round left the hand is finished. *)
Theorem round_advance (gi : GameInfo) (s mid s' : GameState) (a : Action) (nc : nat) :
  act_step gi s a = Ret mid ->
  apply_action_no_cards gi s a = Ret s' ->
  (num_folded gi mid + 1 < num_players gi)%nat ->
  num_called gi mid = Ret nc ->
  (num_active_players gi mid <= nc)%nat ->
  ((1 < num_active_players gi mid)%nat -> (round s + 1 < num_rounds gi)%nat ->
     round s' = S (round s) /\ finished s' = false /\
     (exists m, 1 <= m /\
        (forall i, (i < num_players gi)%nat -> blinds gi @ i <= m) /\
        (m = 1 \/ exists i, (i < num_players gi)%nat /\ blinds gi @ i = m) /\
        min_no_limit_raise_to s' = m + max_spent mid) /\
     max_spent s' = max_spent mid /\
     exists k,
       active_player s' =
         Nat.iter k (fun p => ((p + 1) mod num_players gi)%nat)
           (get 0%nat (first_player gi) (S (round s))) /\
       can_act s' (active_player s') = true /\
       forall j, (j < k)%nat ->
         can_act s' (Nat.iter j (fun p => ((p + 1) mod num_players gi)%nat)
                       (get 0%nat (first_player gi) (S (round s)))) = false) /\
  ((num_active_players gi mid <= 1)%nat ->
     finished s' = true /\ round s' = (num_rounds gi - 1)%nat) /\
  ((1 < num_active_players gi mid)%nat -> (num_rounds gi <= round s + 1)%nat ->
     finished s' = true /\ round s' = round s).
Proof.
  intros Hact H Hnf Hnc Hle.
  destruct (act_step_round _ _ _ _ Hact) as [Hround Hfin].
  unfold apply_action_no_cards, mbind, outcome_bind in H. rewrite Hact in H.
  cbv beta iota in H. unfold close_round, mbind, outcome_bind in H.
  destruct (Nat.leb_spec (num_players gi) (num_folded gi mid + 1)); [lia |].
  rewrite Hnc in H. cbv beta iota in H.
  destruct (Nat.leb_spec (num_active_players gi mid) nc); [| lia].
  destruct (Nat.ltb_spec 1 (num_active_players gi mid)) as [Hgt | Hgt].
  - destruct (Nat.ltb_spec (round mid + 1) (num_rounds gi)) as [Hr | Hr].
    + destruct (add_u32 _ _) as [mn | | | |] eqn:Hadd; try discriminate.
      destruct (skip_loop _ _ _ _) as [b | | | |] eqn:Hskip; try discriminate.
      injection H as <-.
      apply skip_loop_spec in Hskip as (k & Hb & Hq & Hbefore).
      change (round (set_round mid (S (round s)))) with (S (round mid)) in Hb, Hbefore.
      unfold add_u32 in Hadd. destruct (_ <=? _) in Hadd; [| discriminate].
      injection Hadd as <-.
      destruct (max_blind_spec gi) as (Hm1 & Hm2 & Hm3).
      split; [intros _ _ | split; [lia | intros; lia]].
      cbn. rewrite Hround in *. split; [reflexivity | split; [exact Hfin | split]].
      { exists (max_blind gi). split; [exact Hm1 | split; [exact Hm2 | split; [exact Hm3 |]]].
        reflexivity. }
      split; [reflexivity |].
      exists k. split; [exact Hb |]. split.
      * exact Hq.
      * exact Hbefore.
    + injection H as <-. split; [intros; lia | split; [intros; lia |]].
      intros _ _. cbn. split; [reflexivity | exact Hround].
  - destruct (num_rounds gi =? 0)%nat; [discriminate |].
    injection H as <-. split; [intros; lia | split; [| intros; lia]].
    intros _. cbn. split; reflexivity.
Qed.

Lemma round_advance_witness :
  round (play fold_info [Call; Call; Call]) = S (round (play fold_info [Call; Call])) /\
  min_no_limit_raise_to (play fold_info [Call; Call; Call]) = 4.
Proof.
  destruct (proj1 (round_advance fold_info (play fold_info [Call; Call])
                     (ret_state (act_step fold_info (play fold_info [Call; Call]) Call))
                     (play fold_info [Call; Call; Call]) Call 3%nat
                     ltac:(eval_close) ltac:(eval_close) ltac:(eval_close) ltac:(eval_close)
                     ltac:(eval_close))
                  ltac:(eval_close) ltac:(eval_close))
    as (Hr & _ & _ & _ & _).
  split; [exact Hr | eval_close].
Defined.

(** C3: an action can pass the three checks and still not be applied.
    Both players are all-in by their blinds; a call is valid, but the
    search for the next player never finds one who can act and loops
    forever. After 30 raises the raise range is [(0,0)], so [Raise 0]
    is valid; the NoLimit branch then computes [0 * 2 - max_spent], which
    underflows (a panic in a debug build). *)
Theorem valid_action_not_applied :
  finished allin_state = false /\
  (get 0%nat (num_actions allin_state) (round allin_state) < MAX_NUM_ACTIONS)%nat /\
  is_valid_action allin_info allin_state Call = true /\
  apply_action_no_cards allin_info allin_state Call = Hang /\
  finished raises_state = false /\
  (get 0%nat (num_actions raises_state) (round raises_state) < MAX_NUM_ACTIONS)%nat /\
  is_valid_action raises_info raises_state (Raise 0) = true /\
  apply_action_no_cards raises_info raises_state (Raise 0) = Panic "attempt to subtract with overflow".
Proof. conj_eval. Qed.

(** C2: spends [5; 20; 20], player 0 best, player 1 second. Player 0's
    result, +10, is the one the layer rule gives. Player 1 should win the
    second layer of 15 from player 2 (+10 in all); the source gets -20,
    since the compaction moves the spends down but not the ranks, so the
    second layer is scored with player 0's rank. *)
Theorem side_pot_ranks_not_compacted :
  finished sidepot_state = true /\
  spent sidepot_state @ 0 = 5 /\ spent sidepot_state @ 1 = 20 /\ spent sidepot_state @ 2 = 20 /\
  get_payout sidepot_info sidepot_state sidepot_rank 10%nat 0%nat = Ret 10%Z /\
  spec_payout sidepot_info sidepot_state sidepot_rank 0%nat = Some 10%Z /\
  get_payout sidepot_info sidepot_state sidepot_rank 10%nat 1%nat = Ret (-20)%Z /\
  spec_payout sidepot_info sidepot_state sidepot_rank 1%nat = Some 10%Z.
Proof. conj_eval. Qed.

(** Once no player is left in the layer loop, no iteration returns: the
    layer is [u32::MAX], whose [i32] value is [-1]. *)
Lemma payout_loop_no_players (fuel : nat) (rank : list (option nat)) (sp : list N)
    (pidx : nat) (value : Z) :
  is_ret (payout_loop fuel rank sp pidx 0 value) = false.
Proof.
  revert value. induction fuel as [| f IH]; intros value; [reflexivity |].
  cbn [payout_loop seq scan]. unfold mbind, outcome_bind.
  destruct (rank !! pidx) as [[r |] |]; [| reflexivity | reflexivity].
  destruct (r =? 0)%nat.
  - reflexivity.
  - destruct (chk_i32 _) as [v | | | |]; try reflexivity.
    apply IH.
Qed.

(** C10: in the hand of C2, player 2 has not folded, the hand is finished
    and goes to a showdown, and the layer loop never returns player 2's
    result: after two layers no player is left but player 2 never left. *)
Theorem side_pot_loop_never_returns :
  finished sidepot_state = true /\ has_folded sidepot_state 2%nat = false /\
  spent sidepot_state @ 2 = 20 /\
  (num_folded sidepot_info sidepot_state + 1 < num_players sidepot_info)%nat /\
  forall fuel, is_ret (get_payout sidepot_info sidepot_state sidepot_rank fuel 2%nat) = false.
Proof.
  split; [eval_close |]. split; [eval_close |]. split; [eval_close |].
  split; [eval_close |].
  intros fuel. destruct fuel as [| [| fuel]]; [eval_close | eval_close |].
  assert (H1 : has_folded sidepot_state 2%nat = false) by eval_close.
  assert (H2 : finished sidepot_state = true) by eval_close.
  assert (H3 : num_folded sidepot_info sidepot_state = 0%nat) by eval_close.
  assert (H4 : gather sidepot_state sidepot_rank 2%nat (num_players sidepot_info) =
               ([Some 3%nat; Some 2%nat; Some 1%nat], [5; 20; 20], 3%nat, 2%Z))
    by eval_close.
  unfold get_payout. rewrite H1, H2, H3, H4.
  cbn -[payout_loop]. cbn [payout_loop]. cbv -[payout_loop].
  apply payout_loop_no_players.
Qed.

(** ** Chip conservation *)

(** C1 (as stated, refuted): three players put in 1 each and players 0
    and 1 tie at the showdown; the pot of 3 splits as 1 each for them
    with a remainder the truncated division drops, so the payouts are
    0, 0 and -1. *)
Lemma payout_sum_counterexample :
  finished tie_state = true /\
  get_payout tie_info tie_state tie_rank 10%nat 0%nat = Ret 0%Z /\
  get_payout tie_info tie_state tie_rank 10%nat 1%nat = Ret 0%Z /\
  get_payout tie_info tie_state tie_rank 10%nat 2%nat = Ret (-1)%Z /\
  sum_payouts tie_info tie_state tie_rank 10%nat = Ret (-1)%Z.
Proof. conj_eval. Qed.

Lemma spent_le_total (s : GameState) (l : list PlayerId) (p : PlayerId) :
  In p l -> spent s @ p <= spent_total s l.
Proof.
  induction l as [| i l IH]; simpl; [tauto |].
  intros [-> | Hp]; [lia | specialize (IH Hp); lia].
Qed.

Lemma spent_others_le_total (s : GameState) (w : PlayerId) (l : list PlayerId) :
  spent_others s w l <= spent_total s l.
Proof.
  induction l as [| i l IH]; simpl; [lia |].
  destruct (i =? w)%nat; lia.
Qed.

Lemma sum_others_ok (s : GameState) (w : PlayerId) (l : list PlayerId) (v : N) :
  v + spent_others s w l <= u32_max ->
  sum_others s w l v = Ret (v + spent_others s w l).
Proof.
  revert v. induction l as [| i l IH]; intros v H; simpl in *.
  - f_equal. lia.
  - destruct (i =? w)%nat; [apply IH; exact H |].
    unfold add_u32, mbind, outcome_bind.
    destruct (N.leb_spec (v + spent s @ i) u32_max); [| lia].
    rewrite IH by lia. f_equal. lia.
Qed.

Lemma get_payout_folded_value (gi : GameInfo) (s : GameState) (rk : PlayerId -> nat)
    (fuel : nat) (p : PlayerId) :
  has_folded s p = true -> spent s @ p <= 2147483647 ->
  get_payout gi s rk fuel p = Ret (- Z.of_N (spent s @ p))%Z.
Proof.
  intros Hf Hb. unfold get_payout. rewrite Hf.
  rewrite u32_as_i32_small by exact Hb. apply chk_i32_ok. lia.
Qed.

Lemma sum_payouts_list_fold_out (gi : GameInfo) (s : GameState) (rk : PlayerId -> nat)
    (fuel : nat) (w : PlayerId) (W : Z) (l : list PlayerId) :
  NoDup l ->
  get_payout gi s rk fuel w = Ret W ->
  (forall p, In p l -> p <> w -> has_folded s p = true /\ spent s @ p <= 2147483647) ->
  sum_payouts_list gi s rk fuel l =
    Ret ((if existsb (Nat.eqb w) l then W else 0) - Z.of_N (spent_others s w l))%Z.
Proof.
  intros Hnd Hw Hf. induction l as [| p l IH]; simpl; [reflexivity |].
  apply NoDup_cons in Hnd as [Hnin Hnd].
  assert (IH' : sum_payouts_list gi s rk fuel l =
                Ret ((if existsb (Nat.eqb w) l then W else 0) - Z.of_N (spent_others s w l))%Z).
  { apply IH; [exact Hnd |]. intros q Hq. apply Hf. now right. }
  unfold mbind, outcome_bind.
  destruct (Nat.eqb_spec p w) as [-> | Hpw].
  - rewrite Nat.eqb_refl, Hw, IH'. simpl.
    assert (Hex : existsb (Nat.eqb w) l = false).
    { apply not_true_is_false. intros Hex. apply existsb_exists in Hex as (q & Hq & Hwq).
      apply Nat.eqb_eq in Hwq. subst q. apply Hnin. apply list_elem_of_In. exact Hq. }
    rewrite Hex; try (f_equal; lia).
  - destruct (Hf p (or_introl eq_refl) Hpw) as [Hfp Hbp].
    rewrite (get_payout_folded_value gi s rk fuel p Hfp Hbp), IH'.
    assert (Hwp : (w =? p)%nat = false) by (apply Nat.eqb_neq; congruence).
    rewrite Hwp. simpl. f_equal. lia.
Qed.

Lemma filter_length_full {A} (P : A -> Prop) `{!forall x, Decision (P x)} (l : list A) :
  length (filter P l) = length l -> forall x, In x l -> P x.
Proof.
  induction l as [| a l IH]; simpl; [tauto |].
  rewrite filter_cons. pose proof (length_filter P l) as Hle.
  case_decide as Ha; simpl; intros Hlen x [<- | Hx].
  - exact Ha.
  - apply IH; [lia | exact Hx].
  - lia.
  - lia.
Qed.

Lemma one_left (P : nat -> Prop) `{!forall x, Decision (P x)} (l : list nat) :
  (length (filter P l) + 1 = length l)%nat ->
  exists w, In w l /\ ~ P w /\ forall p, In p l -> p <> w -> P p.
Proof.
  induction l as [| a l IH]; simpl; [lia |].
  rewrite filter_cons. case_decide as Ha; simpl; intros Hlen.
  - destruct (IH ltac:(lia)) as (w & Hw & Hnw & Hall).
    exists w. split; [now right | split; [exact Hnw |]].
    intros p [<- | Hp] Hpw; [exact Ha | exact (Hall p Hp Hpw)].
  - exists a. split; [now left | split; [exact Ha |]].
    intros p [<- | Hp] Hpa; [congruence |].
    apply (filter_length_full P l); [lia | exact Hp].
Qed.

(** *** Showdowns with a single pot layer *)

Lemma best_fold_eq (rs : list (option nat)) (win : nat) (nw : Z) :
  best_fold rs win nw =
    (Nat.max win (max_some rs),
     ((if (win =? Nat.max win (max_some rs))%nat then nw else 0) +
      Z.of_nat (length (filter (fun r => r = Some (Nat.max win (max_some rs))) rs)))%Z).
Proof.
  revert win nw. induction rs as [| [r |] rs IH]; intros win nw; cbn [best_fold max_some].
  - rewrite Nat.max_0_r, Nat.eqb_refl. cbn. f_equal. lia.
  - rewrite filter_cons. destruct (Nat.ltb_spec win r).
    + rewrite IH.
      assert (HM : Nat.max win (Nat.max r (max_some rs)) = Nat.max r (max_some rs)) by lia.
      rewrite HM. destruct (Nat.eqb_spec win (Nat.max r (max_some rs))); [lia |].
      destruct (Nat.eqb_spec r (Nat.max r (max_some rs))); case_decide as Hd;
        try congruence; cbn [length]; f_equal; lia.
    + destruct (Nat.eqb_spec r win) as [-> | Hne].
      * rewrite IH.
        assert (HM : Nat.max win (Nat.max win (max_some rs)) = Nat.max win (max_some rs)) by lia.
        rewrite HM. destruct (Nat.eqb_spec win (Nat.max win (max_some rs))); case_decide as Hd;
          try congruence; cbn [length]; f_equal; lia.
      * rewrite IH.
        assert (HM : Nat.max win (Nat.max r (max_some rs)) = Nat.max win (max_some rs)) by lia.
        rewrite HM. case_decide as Hd; [injection Hd; lia |]. reflexivity.
  - rewrite filter_cons. case_decide as Hd; [discriminate Hd |]. apply IH.
Qed.

Lemma scan_const (rank : list (option nat)) (sp : list N) (c : N) (a len : nat)
    (size : N) (win : nat) (nw : Z) :
  c <> 0 -> c <= size ->
  (forall i, (a <= i < a + len)%nat -> sp @ i = c) ->
  scan rank sp (seq a len) size win nw =
    Ret ((if (len =? 0)%nat then size else c),
         fst (best_fold (map (get None rank) (seq a len)) win nw),
         snd (best_fold (map (get None rank) (seq a len)) win nw)).
Proof.
  revert a size win nw. induction len as [| len IH]; intros a size win nw Hc Hle Hsp.
  - reflexivity.
  - cbn [seq scan map]. rewrite (Hsp a ltac:(lia)).
    destruct (N.eqb_spec c 0) as [| _]; [contradiction |].
    assert (Hs : (if c <? size then c else size) = c) by (destruct (N.ltb_spec c size); lia).
    rewrite Hs.
    assert (IH' : forall w n', scan rank sp (seq (S a) len) c w n' =
              Ret (c, fst (best_fold (map (get None rank) (seq (S a) len)) w n'),
                      snd (best_fold (map (get None rank) (seq (S a) len)) w n'))).
    { intros w n'. rewrite IH; [destruct (len =? 0)%nat; reflexivity | exact Hc | lia |].
      intros i Hi. apply Hsp. lia. }
    change ((S len =? 0)%nat) with false. cbv iota.
    destruct (get None rank a) as [r |]; cbn [best_fold]; [| apply IH'].
    destruct (win <? r)%nat; [apply IH' |]. destruct (r =? win)%nat; apply IH'.
Qed.

Lemma compact_exhausted (sp : list N) (size : N) (pidx : nat) (value : Z) (a len newl : nat) :
  (forall i, (a <= i < a + len)%nat -> sp @ i = size) -> (a <= pidx < a + len)%nat ->
  compact sp size pidx value (seq a len) newl = Ret (Returned value).
Proof.
  revert sp a. induction len as [| len IH]; intros sp a Hsp Hp; [lia |].
  cbn [seq compact]. rewrite (Hsp a ltac:(lia)).
  replace (sub_u32 size size) with (Ret 0 : outcome N)
    by (unfold sub_u32; rewrite N.leb_refl, N.sub_diag; reflexivity).
  unfold mbind. cbn [outcome_bind N.eqb].
  destruct (Nat.eqb_spec a pidx); [reflexivity |].
  apply IH; [| lia]. intros i Hi. rewrite get_insert, decide_False by lia. apply Hsp. lia.
Qed.

Lemma insert_pad {A} (L : list A) (k : nat) (v d : A) (r : nat) :
  k = length L -> <[k := v]> (L ++ replicate (S r) d) = (L ++ [v]) ++ replicate r d.
Proof.
  intros ->. replace (length L) with (length L + 0)%nat at 1 by lia.
  rewrite insert_app_r. cbn. rewrite <- app_assoc. reflexivity.
Qed.

Lemma ltb_S_ne (p m : nat) : p <> m -> (p <? S m)%nat = (p <? m)%nat.
Proof. intros H. destruct (Nat.ltb_spec p (S m)), (Nat.ltb_spec p m); lia || reflexivity. Qed.

Lemma gather_eq (s : GameState) (rk : PlayerId -> nat) (player n : nat) :
  gather s rk player n =
    (map (fun i => if has_folded s i then None else Some (rk i))
         (filter (fun i => spent s @ i <> 0) (seq 0 n)) ++
       replicate (n - length (filter (fun i => spent s @ i <> 0) (seq 0 n))) None,
     map (fun i => spent s @ i) (filter (fun i => spent s @ i <> 0) (seq 0 n)) ++
       replicate (n - length (filter (fun i => spent s @ i <> 0) (seq 0 n))) 0,
     length (filter (fun i => spent s @ i <> 0) (seq 0 n)),
     if (player <? n)%nat && negb (has_folded s player) && negb (spent s @ player =? 0)
     then Z.of_nat (length (filter (fun i => spent s @ i <> 0) (seq 0 player))) else (-1)%Z).
Proof.
  unfold gather.
  match goal with |- fold_left ?F _ ?init = _ => set (f := F); set (z := init) end.
  assert (Hm : forall m, (m <= n)%nat ->
    fold_left f (seq 0 m) z =
    (map (fun i => if has_folded s i then None else Some (rk i))
         (filter (fun i => spent s @ i <> 0) (seq 0 m)) ++
       replicate (n - length (filter (fun i => spent s @ i <> 0) (seq 0 m))) None,
     map (fun i => spent s @ i) (filter (fun i => spent s @ i <> 0) (seq 0 m)) ++
       replicate (n - length (filter (fun i => spent s @ i <> 0) (seq 0 m))) 0,
     length (filter (fun i => spent s @ i <> 0) (seq 0 m)),
     if (player <? m)%nat && negb (has_folded s player) && negb (spent s @ player =? 0)
     then Z.of_nat (length (filter (fun i => spent s @ i <> 0) (seq 0 player))) else (-1)%Z)).
  { induction m as [| m IH]; intros Hmn.
    - cbn. rewrite Nat.sub_0_r. reflexivity.
    - pose proof (length_filter (fun i => spent s @ i <> 0) (seq 0 m)) as Hlen.
      rewrite length_seq in Hlen.
      rewrite seq_S, fold_left_app, IH by lia. cbn [fold_left]. unfold f at 1.
      rewrite filter_app, filter_cons. cbn [filter]. rewrite filter_nil. cbn [Nat.add].
      destruct (N.eqb_spec (spent s @ m) 0) as [Hz | Hnz].
      + case_decide as Hd; [contradiction |]. rewrite app_nil_r.
        destruct (Nat.eqb_spec player m) as [-> | Hne].
        * rewrite Nat.ltb_irrefl, Hz. cbn [N.eqb negb]. rewrite !andb_false_r. reflexivity.
        * rewrite ltb_S_ne by exact Hne. reflexivity.
      + case_decide as Hd; [| contradiction].
        rewrite !map_app, length_app. cbn [map length]. rewrite Nat.add_1_r.
        replace (n - length (filter (fun i => spent s @ i <> 0%N) (seq 0 m)))%nat
          with (S (n - S (length (filter (fun i => spent s @ i <> 0%N) (seq 0 m)))))%nat by lia.
        destruct (has_folded s m) eqn:Hf; cbv iota beta zeta;
          (rewrite !insert_pad by (rewrite List.length_map; reflexivity));
          rewrite <- !app_assoc; cbn [app].
        * destruct (Nat.eqb_spec player m) as [-> | Hne].
          -- rewrite Nat.ltb_irrefl, Hf. cbn [negb]. rewrite !andb_false_r. reflexivity.
          -- rewrite ltb_S_ne by exact Hne. reflexivity.
        * destruct (Nat.eqb_spec m player) as [-> | Hne].
          -- rewrite Hf. cbn [negb andb].
             rewrite (proj2 (Nat.ltb_lt player (S player))) by lia.
             destruct (N.eqb_spec (spent s @ player) 0); [contradiction |]. reflexivity.
          -- rewrite ltb_S_ne by congruence. reflexivity. }
  apply Hm. lia.
Qed.

Lemma map_get_prefix {A} (d : A) (L T : list A) :
  map (get d (L ++ T)) (seq 0 (length L)) = map (get d L) (seq 0 (length L)).
Proof.
  apply map_ext_in. intros i Hi. apply in_seq in Hi.
  unfold get. rewrite lookup_app_l by lia. reflexivity.
Qed.

Lemma map_get_self {A} (d : A) (L : list A) : map (get d L) (seq 0 (length L)) = L.
Proof.
  induction L as [| x L IH]; [reflexivity |].
  cbn [length seq map]. rewrite <- seq_shift, map_map.
  unfold get at 1. cbn. f_equal. exact IH.
Qed.

Lemma filter_seq_lookup (P : nat -> Prop) `{!forall x, Decision (P x)} (n p : nat) :
  (p < n)%nat -> P p ->
  filter P (seq 0 n) !! length (filter P (seq 0 p)) = Some p.
Proof.
  intros Hp HP. replace n with (p + S (n - S p))%nat by lia.
  rewrite seq_app, filter_app. cbn [seq Nat.add]. rewrite filter_cons, decide_True by exact HP.
  rewrite lookup_app_r, Nat.sub_diag by lia. reflexivity.
Qed.

Lemma filter_length_pos {A} (P : A -> Prop) `{!forall x, Decision (P x)} (l : list A) (x : A) :
  In x l -> P x -> (0 < length (filter P l))%nat.
Proof.
  induction l as [| y l IH]; [intros [] |]. intros [-> | Hx] HP; rewrite filter_cons.
  - rewrite decide_True by exact HP. cbn. lia.
  - specialize (IH Hx HP). case_decide; cbn; lia.
Qed.

Lemma filter_covers_length (P Q : nat -> Prop) `{!forall x, Decision (P x)} `{!forall x, Decision (Q x)}
    (l : list nat) :
  (forall x, In x l -> ~ Q x -> P x) ->
  (length l <= length (filter P l) + length (filter Q l))%nat.
Proof.
  induction l as [| x l IH]; intros Hcov; [cbn; lia |].
  rewrite !filter_cons. specialize (IH (fun y Hy => Hcov y (or_intror Hy))).
  case_decide as HP; case_decide as HQ; cbn; try lia.
  exfalso. apply HP. apply Hcov; [now left | exact HQ].
Qed.

Lemma best_rank_max_some (cs : list (nat * N * option nat)) :
  best_rank cs = max_some (map (fun '(_, _, r) => r) cs).
Proof.
  unfold best_rank. induction cs as [| [[i x] r] cs IH]; [reflexivity |].
  cbn [foldr map]. rewrite IH. destruct r; reflexivity.
Qed.

Lemma num_best_filter (cs : list (nat * N * option nat)) (B : nat) :
  length (filter (fun '(_, _, r) => r = Some B) cs) =
  length (filter (fun r => r = Some B) (map (fun '(_, _, r) => r) cs)).
Proof.
  induction cs as [| [[i x] r] cs IH]; [reflexivity |].
  cbn [map]. rewrite !filter_cons. case_decide; case_decide; cbn [length]; congruence || lia.
Qed.

Lemma contestants_top_count (s : GameState) (rk : PlayerId -> nat) (B : nat) (l : list nat) :
  (forall p, In p l -> has_folded s p = false -> spent s @ p <> 0) ->
  length (filter (fun r => r = Some B)
            (map (fun i => if has_folded s i then None else Some (rk i))
                 (filter (fun i => spent s @ i <> 0) l))) =
  length (filter (fun p => has_folded s p = false /\ rk p = B) l).
Proof.
  induction l as [| p l IH]; intros H; [reflexivity |].
  specialize (IH (fun q Hq => H q (or_intror Hq))).
  rewrite (filter_cons (fun i => spent s @ i <> 0)).
  rewrite (filter_cons (fun p => has_folded s p = false /\ rk p = B)).
  case_decide as Hnz.
  - cbn [map]. rewrite filter_cons.
    destruct (has_folded s p) eqn:Hf; cbv iota.
    + rewrite decide_False by (intro Hd; discriminate Hd).
      rewrite decide_False by (intros [Hd _]; discriminate Hd). exact IH.
    + case_decide as Hg; case_decide as Ht; cbn [length]; rewrite ?IH; try reflexivity.
      * exfalso. apply Ht. split; [reflexivity | congruence].
      * exfalso. apply Hg. destruct Ht as [_ ->]. reflexivity.
  - destruct (has_folded s p) eqn:Hf.
    + rewrite decide_False by (intros [Hd _]; discriminate Hd). exact IH.
    + exfalso. exact (H p (or_introl eq_refl) Hf Hnz).
Qed.

Lemma foldr_sum_by_class (l : list nat) (f : nat -> Z) (T Nz : nat -> Prop)
    `{!forall x, Decision (T x)} `{!forall x, Decision (Nz x)} (q c : Z) :
  (forall p, In p l -> (T p -> Nz p) /\
     f p = if decide (T p) then q else if decide (Nz p) then (- c)%Z else 0%Z) ->
  foldr (fun p acc => f p + acc)%Z 0%Z l =
    (Z.of_nat (length (filter T l)) * q -
     c * (Z.of_nat (length (filter Nz l)) - Z.of_nat (length (filter T l))))%Z.
Proof.
  induction l as [| p l IH]; intros Hcl; [cbn; ring |].
  cbn [foldr]. rewrite IH by (intros x Hx; apply Hcl; now right).
  destruct (Hcl p (or_introl eq_refl)) as [HTN ->].
  rewrite !filter_cons.
  destruct (decide (T p)) as [HT | HT]; destruct (decide (Nz p)) as [HN | HN];
    try (exfalso; exact (HN (HTN HT))); cbn [length]; rewrite ?Nat2Z.inj_succ; ring.
Qed.

Lemma sum_payouts_list_pointwise (gi : GameInfo) (s : GameState) (rk : PlayerId -> nat)
    (fuel : nat) (f : PlayerId -> Z) (l : list PlayerId) :
  (forall p, In p l -> get_payout gi s rk fuel p = Ret (f p)) ->
  sum_payouts_list gi s rk fuel l = Ret (foldr (fun p acc => f p + acc)%Z 0%Z l).
Proof.
  induction l as [| p l IH]; intros H; [reflexivity |].
  cbn [sum_payouts_list foldr]. unfold mbind.
  rewrite (H p (or_introl eq_refl)). cbn [outcome_bind].
  rewrite IH by (intros q Hq; apply H; now right). reflexivity.
Qed.

Lemma lookup_map' {A B} (f : A -> B) (l : list A) (i : nat) :
  map f l !! i = option_map f (l !! i).
Proof. revert i. induction l as [| x l IH]; intros [| i]; cbn; auto. Qed.

(** The payout of a player who has not folded, at a showdown where every
    contestant committed the same amount [c]. *)
Lemma showdown_payout (gi : GameInfo) (s : GameState) (rk : PlayerId -> nat)
    (fuel : nat) (c : N) (p : PlayerId) :
  finished s = true ->
  (num_folded gi s + 2 <= num_players gi)%nat ->
  c <> 0 ->
  (forall i, (i < num_players gi)%nat -> has_folded s i = false -> spent s @ i = c) ->
  (forall i, (i < num_players gi)%nat -> has_folded s i = true -> spent s @ i = 0 \/ spent s @ i = c) ->
  (Z.of_N c * Z.of_nat (length (contestants gi s rk)) <= 2147483647)%Z ->
  fuel <> 0%nat ->
  (p < num_players gi)%nat -> has_folded s p = false ->
  get_payout gi s rk fuel p =
    Ret (if (rk p =? best_rank (contestants gi s rk))%nat
         then Z.quot (Z.of_N c * (Z.of_nat (length (contestants gi s rk)) -
                                  Z.of_nat (num_best (contestants gi s rk))))
                     (Z.of_nat (num_best (contestants gi s rk)))
         else (- Z.of_N c))%Z.
Proof.
  intros Hfin Hnf Hc Hnfs Hfs Hbound Hfuel Hp Hpf.
  unfold get_payout. rewrite Hpf, Hfin, gather_eq. cbn [negb].
  set (n := num_players gi) in *.
  set (K := filter (fun i => spent s @ i <> 0) (seq 0 n)).
  set (g := fun i => if has_folded s i then None else Some (rk i)).
  assert (Hcont : contestants gi s rk = map (fun i => (i, spent s @ i, g i)) K) by reflexivity.
  assert (Hthd : map (fun '(_, _, r) => r) (contestants gi s rk) = map g K)
    by (rewrite Hcont, map_map; reflexivity).
  assert (Hlen : length (contestants gi s rk) = length K) by (rewrite Hcont; apply length_map).
  assert (HB : best_rank (contestants gi s rk) = max_some (map g K))
    by (rewrite best_rank_max_some, Hthd; reflexivity).
  assert (HW : num_best (contestants gi s rk) =
               length (filter (fun r => r = Some (max_some (map g K))) (map g K)))
    by (unfold num_best; rewrite num_best_filter, Hthd, HB; reflexivity).
  rewrite HB, HW, Hlen. rewrite Hlen in Hbound.
  assert (HK : forall i, i ∈ K -> spent s @ i = c).
  { intros i Hi. apply list_elem_of_filter in Hi as [Hnz Hi]. apply elem_of_seq in Hi.
    destruct (has_folded s i) eqn:Hf.
    - destruct (Hfs i ltac:(lia) Hf) as [H0 | Hc']; [contradiction | exact Hc'].
    - apply Hnfs; [lia | exact Hf]. }
  assert (Hk2 : (2 <= length K)%nat).
  { assert (Hcov : (length (seq 0 n) <= length K + num_folded gi s)%nat).
    { apply filter_covers_length. intros x Hx Hfx. apply in_seq in Hx.
      apply not_true_is_false in Hfx. rewrite (Hnfs x ltac:(lia) Hfx). exact Hc. }
    rewrite length_seq in Hcov. lia. }
  assert (Hsp : forall i, (0 <= i < 0 + length K)%nat ->
                  (map (fun i => spent s @ i) K ++ replicate (n - length K) 0) @ i = c).
  { intros i Hi. unfold get. rewrite lookup_app_l by (rewrite List.length_map; lia).
    rewrite lookup_map'. destruct (K !! i) as [x |] eqn:Hx; [| apply lookup_ge_None in Hx; lia].
    apply HK. exact (list_elem_of_lookup_2 _ _ _ Hx). }
  assert (Hrk : map (get None (map g K ++ replicate (n - length K) None)) (seq 0 (length K)) = map g K).
  { pose proof (map_get_prefix None (map g K) (replicate (n - length K) None)) as E1.
    pose proof (map_get_self None (map g K)) as E2.
    assert (Hlm : length (map g K) = length K) by apply List.length_map.
    rewrite Hlm in E1, E2. rewrite E1, E2. reflexivity. }
  assert (Hpc : spent s @ p = c) by (apply Hnfs; [exact Hp | exact Hpf]).
  pose proof (filter_seq_lookup (fun i => spent s @ i <> 0) n p Hp (fun H => Hc (eq_trans (eq_sym Hpc) H))) as HKj.
  fold K in HKj.
  set (j := length (filter (fun i => spent s @ i <> 0) (seq 0 p))) in *.
  assert (Hj : (j < length K)%nat) by (apply lookup_lt_Some in HKj; exact HKj).
  rewrite (proj2 (Nat.eqb_neq (num_folded gi s + 1) n)) by lia.
  rewrite (proj2 (Nat.ltb_lt p n) Hp), Hpf, Hpc. destruct (N.eqb_spec c 0) as [| _]; [contradiction |].
  cbn [negb andb]. cbv beta iota.
  rewrite (proj2 (Nat.ltb_lt 1 (length K))) by lia. cbn [negb].
  rewrite (proj2 (Z.leb_gt (Z.of_nat j) (-1))) by lia. rewrite Nat2Z.id.
  destruct fuel as [| f]; [contradiction |]. cbn [payout_loop].
  rewrite (scan_const _ _ c 0 (length K) u32_max 0 0 Hc) by (exact Hsp || (unfold u32_max; lia)).
  rewrite (proj2 (Nat.eqb_neq (length K) 0)) by lia.
  rewrite Hrk, best_fold_eq. cbn [fst snd]. rewrite Nat.max_0_l.
  replace (if (0 =? max_some (map g K))%nat then 0%Z else 0%Z) with 0%Z
    by (destruct (0 =? max_some (map g K))%nat; reflexivity).
  rewrite Z.add_0_l. unfold mbind. cbn [outcome_bind].
  rewrite lookup_app_l by (rewrite List.length_map; exact Hj).
  rewrite lookup_map'.
  change (@lookup nat PlayerId (list PlayerId) (@list_lookup PlayerId) j K) with (K !! j).
  rewrite HKj. cbn [option_map].
  replace (g p) with (Some (rk p)) by (unfold g; rewrite Hpf; reflexivity).
  assert (Hc32 : c <= 2147483647) by lia.
  rewrite u32_as_i32_small by exact Hc32.
  assert (HWle : (length (filter (fun r => r = Some (max_some (map g K))) (map g K)) <= length K)%nat)
    by (transitivity (length (map g K)); [apply length_filter | rewrite List.length_map; reflexivity]).
  destruct (Nat.eqb_spec (rk p) (max_some (map g K))) as [Htop | Hntop].
  - set (W := length (filter (fun r => r = Some (max_some (map g K))) (map g K))) in *.
    assert (HW1 : (1 <= W)%nat).
    { apply (filter_length_pos _ _ (Some (rk p))); [| rewrite Htop; reflexivity].
      apply list_elem_of_In. apply (list_elem_of_lookup_2 _ j).
      rewrite lookup_map'.
      change (@lookup nat PlayerId (list PlayerId) (@list_lookup PlayerId) j K) with (K !! j).
      rewrite HKj. cbn. unfold g. rewrite Hpf. reflexivity. }
    rewrite chk_i32_ok by nia. cbn [outcome_bind].
    rewrite (proj2 (Z.eqb_neq (Z.of_nat W) 0)) by lia.
    assert (Hq : (0 <= Z.quot (Z.of_N c * (Z.of_nat (length K) - Z.of_nat W)) (Z.of_nat W)
                  <= Z.of_N c * (Z.of_nat (length K) - Z.of_nat W))%Z).
    { assert (Ht : (0 <= Z.of_N c * (Z.of_nat (length K) - Z.of_nat W))%Z)
        by (apply Z.mul_nonneg_nonneg; lia).
      revert Ht. generalize (Z.of_N c * (Z.of_nat (length K) - Z.of_nat W))%Z as t. intros t Ht.
      rewrite Z.quot_div_nonneg by lia.
      split; [apply Z.div_pos; lia | apply Z.div_le_upper_bound; nia]. }
    rewrite chk_i32_ok by nia. cbn [outcome_bind].
    rewrite (compact_exhausted _ c j _ 0 (length K) 0) by (exact Hsp || lia).
    cbn [outcome_bind]. f_equal; lia.
  - rewrite chk_i32_ok by lia. cbn [outcome_bind].
    rewrite (compact_exhausted _ c j _ 0 (length K) 0) by (exact Hsp || lia).
    cbn [outcome_bind]. f_equal; lia.
Qed.

Lemma num_best_map (s : GameState) (rk : PlayerId -> nat) (B : nat) (l : list nat) :
  length (filter (fun '(_, _, r) => r = Some B)
            (map (fun i => (i, spent s @ i, if has_folded s i then None else Some (rk i))) l)) =
  length (filter (fun r => r = Some B)
            (map (fun i => if has_folded s i then None else Some (rk i)) l)).
Proof.
  induction l as [| p l IH]; [reflexivity |].
  cbn [map]. rewrite !filter_cons. case_decide; case_decide; cbn [length]; congruence || lia.
Qed.

Lemma showdown_two_contestants (gi : GameInfo) (s : GameState) (rk : PlayerId -> nat) (c : N) :
  (num_folded gi s + 2 <= num_players gi)%nat -> c <> 0 ->
  (forall i, (i < num_players gi)%nat -> has_folded s i = false -> spent s @ i = c) ->
  (2 <= length (contestants gi s rk))%nat.
Proof.
  intros Hnf Hc Hnfs. unfold contestants. rewrite List.length_map.
  assert (Hcov : (length (seq 0 (num_players gi)) <=
                  length (filter (fun i => spent s @ i <> 0%N) (seq 0 (num_players gi))) + num_folded gi s)%nat).
  { apply filter_covers_length. intros x Hx Hfx. apply in_seq in Hx.
    apply not_true_is_false in Hfx. rewrite (Hnfs x ltac:(lia) Hfx). exact Hc. }
  rewrite length_seq in Hcov. lia.
Qed.

(** C1 (amended): the payouts of all players add up to zero when all
    players but one have folded, the hand is finished and the spends add
    up to at most [i32::MAX]: the last player wins the others' spends and
    each folded player loses their own.  At a showdown of a single pot
    layer (at least two players have not folded, each of them committed
    the same [c > 0], and every folded player committed [0] or [c]), with
    [c] times the number [k] of contestants at most [i32::MAX], the
    payouts add up to [w * trunc(c * (k - w) / w) - c * (k - w)], where
    [w] is the number of players holding the best rank: zero when [w]
    divides [c * (k - w)], as with a single winner, and short of zero by
    the remainder of the truncated division otherwise. *)
Theorem payouts_sum_fold_out_or_single_pot :
  (forall (gi : GameInfo) (s : GameState) (rk : PlayerId -> nat) (fuel : nat),
     finished s = true ->
     (num_folded gi s + 1 = num_players gi)%nat ->
     spent_total s (seq 0 (num_players gi)) <= 2147483647 ->
     sum_payouts gi s rk fuel = Ret 0%Z) /\
  (forall (gi : GameInfo) (s : GameState) (rk : PlayerId -> nat) (fuel : nat) (c : N),
     finished s = true ->
     (num_folded gi s + 2 <= num_players gi)%nat ->
     c <> 0 ->
     (forall p, (p < num_players gi)%nat -> has_folded s p = false -> spent s @ p = c) ->
     (forall p, (p < num_players gi)%nat -> has_folded s p = true ->
        spent s @ p = 0 \/ spent s @ p = c) ->
     (Z.of_N c * Z.of_nat (length (contestants gi s rk)) <= 2147483647)%Z ->
     fuel <> 0%nat ->
     sum_payouts gi s rk fuel =
       Ret (let k := Z.of_nat (length (contestants gi s rk)) in
            let w := Z.of_nat (num_best (contestants gi s rk)) in
            w * Z.quot (Z.of_N c * (k - w)) w - Z.of_N c * (k - w))%Z).
Proof.
  split.
  - intros gi s rk fuel Hfin Hnf Hb. pose proof Hnf as Hnf0.
    unfold num_folded in Hnf. rewrite <- (length_seq (num_players gi) 0) in Hnf at 2.
    destruct (one_left (fun i => has_folded s i = true) _ Hnf) as (w & Hw & Hnw & Hall).
    apply not_true_is_false in Hnw.
    pose proof (spent_others_le_total s w (seq 0 (num_players gi))) as Ho.
    assert (Hpw : get_payout gi s rk fuel w =
                  Ret (Z.of_N (spent_others s w (seq 0 (num_players gi))))).
    { unfold get_payout. rewrite Hnw, Hfin. cbn [negb].
      rewrite (proj2 (Nat.eqb_eq _ _) Hnf0).
      unfold mbind, outcome_bind. rewrite sum_others_ok by (unfold u32_max; lia).
      destruct (N.leb_spec (0 + spent_others s w (seq 0 (num_players gi))) 2147483647); [| lia].
      reflexivity. }
    unfold sum_payouts.
    rewrite (sum_payouts_list_fold_out gi s rk fuel w _ _ (NoDup_seq 0 _) Hpw).
    + assert (Hex : existsb (Nat.eqb w) (seq 0 (num_players gi)) = true).
      { apply existsb_exists. exists w. split; [exact Hw | apply Nat.eqb_refl]. }
      rewrite Hex. f_equal. lia.
    + intros p Hp Hpw'. split; [exact (Hall p Hp Hpw') |].
      pose proof (spent_le_total s _ p Hp). lia.
  - intros gi s rk fuel c Hfin Hnf Hc Hnfs Hfs Hbound Hfuel. cbv zeta.
    pose proof (showdown_two_contestants gi s rk c Hnf Hc Hnfs) as H2.
    assert (Hc32 : c <= 2147483647) by lia.
    set (B := best_rank (contestants gi s rk)).
    set (q := Z.quot (Z.of_N c * (Z.of_nat (length (contestants gi s rk)) -
                                  Z.of_nat (num_best (contestants gi s rk))))
                     (Z.of_nat (num_best (contestants gi s rk)))).
    unfold sum_payouts.
    rewrite (sum_payouts_list_pointwise gi s rk fuel
      (fun p => if has_folded s p then (- Z.of_N (spent s @ p))%Z
                else if (rk p =? B)%nat then q else (- Z.of_N c)%Z)).
    2: { intros p Hp. apply in_seq in Hp. destruct (has_folded s p) eqn:Hf.
         - apply get_payout_folded_value; [exact Hf |].
           destruct (Hfs p ltac:(lia) Hf) as [-> | ->]; lia.
         - exact (showdown_payout gi s rk fuel c p Hfin Hnf Hc Hnfs Hfs Hbound Hfuel ltac:(lia) Hf). }
    f_equal.
    rewrite (foldr_sum_by_class _ _ (fun p => has_folded s p = false /\ rk p = B)
               (fun p => spent s @ p <> 0) q (Z.of_N c)).
    2: { intros p Hp. apply in_seq in Hp. split.
         - intros [Hf _]. rewrite (Hnfs p ltac:(lia) Hf). exact Hc.
         - destruct (has_folded s p) eqn:Hf.
           + rewrite decide_False by (intros [Hd _]; discriminate Hd).
             destruct (Hfs p ltac:(lia) Hf) as [Hz | Hz]; rewrite Hz.
             * rewrite decide_False by tauto. reflexivity.
             * rewrite decide_True by exact Hc. reflexivity.
           + destruct (Nat.eqb_spec (rk p) B) as [e | ne].
             * rewrite decide_True by (split; [reflexivity | exact e]). reflexivity.
             * rewrite decide_False by (intros [_ e]; contradiction).
               rewrite decide_True by (rewrite (Hnfs p ltac:(lia) Hf); exact Hc). reflexivity. }
    assert (Hk : length (filter (fun p => spent s @ p <> 0%N) (seq 0 (num_players gi))) =
                 length (contestants gi s rk))
      by (unfold contestants; rewrite List.length_map; reflexivity).
    assert (Hw : length (filter (fun p : nat => has_folded s p = false /\ rk p = B) (seq 0 (num_players gi))) =
                 num_best (contestants gi s rk)).
    { unfold num_best. fold B. unfold contestants. rewrite num_best_map.
      rewrite contestants_top_count; [reflexivity |].
      intros p Hp Hf. apply in_seq in Hp. rewrite (Hnfs p ltac:(lia) Hf). exact Hc. }
    rewrite Hk, Hw. ring.
Qed.

Lemma payouts_sum_fold_out_or_single_pot_witness :
  sum_payouts fold_info (play fold_info [Raise 10; Fold; Fold]) sidepot_rank 0%nat = Ret 0%Z /\
  sum_payouts tie_info tie_state sidepot_rank 1%nat = Ret 0%Z /\
  sum_payouts tie_info tie_state tie_rank 1%nat = Ret (-1)%Z.
Proof.
  split; [| split].
  - apply (proj1 payouts_sum_fold_out_or_single_pot); eval_close.
  - refine (eq_trans (proj2 payouts_sum_fold_out_or_single_pot
                        tie_info tie_state sidepot_rank 1%nat 1 _ _ _ _ _ _ _) _).
    + vm_compute; reflexivity.
    + vm_compute; lia.
    + discriminate.
    + intros p Hp _. vm_compute in Hp. do 3 (destruct p as [| p]; [vm_compute; reflexivity |]). lia.
    + intros p Hp Hf. vm_compute in Hp. do 3 (destruct p as [| p]; [vm_compute in Hf; discriminate Hf |]). lia.
    + apply Z.leb_le. vm_compute. reflexivity.
    + discriminate.
    + vm_compute. reflexivity.
  - refine (eq_trans (proj2 payouts_sum_fold_out_or_single_pot
                        tie_info tie_state tie_rank 1%nat 1 _ _ _ _ _ _ _) _).
    + vm_compute; reflexivity.
    + vm_compute; lia.
    + discriminate.
    + intros p Hp _. vm_compute in Hp. do 3 (destruct p as [| p]; [vm_compute; reflexivity |]). lia.
    + intros p Hp Hf. vm_compute in Hp. do 3 (destruct p as [| p]; [vm_compute in Hf; discriminate Hf |]). lia.
    + apply Z.leb_le. vm_compute. reflexivity.
    + discriminate.
    + vm_compute. reflexivity.
Defined.

(** * The rest of the code *)

(** ** Board cards *)

Lemma total_board_loop_ok (nbc : list nat) (a m t : nat) :
  (a + m <= length nbc)%nat -> (t + sum_list (take m (drop a nbc)) <= 255)%nat ->
  total_board_loop nbc (seq a m) t = Ret (t + sum_list (take m (drop a nbc)))%nat.
Proof.
  revert a t. induction m as [| m IH]; intros a t Hlen Hsum; cbn [seq total_board_loop].
  - f_equal. simpl. lia.
  - destruct (drop a nbc) as [| v rest] eqn:Hd.
    { pose proof (length_drop nbc a) as Hl. rewrite Hd in Hl. simpl in Hl. lia. }
    assert (Hv : nbc !! a = Some v).
    { rewrite <- (Nat.add_0_r a), <- lookup_drop, Hd. reflexivity. }
    assert (Hr : drop (S a) nbc = rest).
    { replace (S a) with (a + 1)%nat by lia. rewrite <- drop_drop, Hd. reflexivity. }
    rewrite Hv. simpl in Hsum.
    destruct (Nat.leb_spec (t + v) 255); [| lia].
    rewrite IH; [f_equal; rewrite Hr; simpl; lia | lia | rewrite Hr; lia].
Qed.

Lemma total_board_loop_short (nbc : list nat) (a m t : nat) :
  (length nbc < a + S m)%nat -> exists msg, total_board_loop nbc (seq a (S m)) t = Panic msg.
Proof.
  revert a t. induction m as [| m IH]; intros a t Hlen; simpl.
  - rewrite (proj2 (lookup_ge_None nbc a)) by lia. eauto.
  - destruct (nbc !! a) as [v |] eqn:Hv; [| eauto].
    destruct (t + v <=? 255)%nat; [| eauto].
    apply lookup_lt_Some in Hv. apply (IH (S a)). lia.
Qed.

(** [total_board_cards r] is the number of board cards dealt in rounds
    [0..=r] when [r] is a round of the game and the sum fits a [u8]; it
    panics when [r] is not a round of the game. *)
Theorem total_board_cards_sum (gi : GameInfo) (r : nat) :
  ((r < length (num_board_cards gi))%nat ->
   (sum_list (take (S r) (num_board_cards gi)) <= 255)%nat ->
   total_board_cards gi r = Ret (sum_list (take (S r) (num_board_cards gi)))) /\
  ((length (num_board_cards gi) <= r)%nat -> exists msg, total_board_cards gi r = Panic msg).
Proof.
  unfold total_board_cards. split.
  - intros Hr Hs. rewrite total_board_loop_ok; [reflexivity | simpl; lia | exact Hs].
  - intros Hr. apply total_board_loop_short. lia.
Qed.

Lemma total_board_cards_sum_witness :
  total_board_cards holdem_info 2 = Ret 4%nat /\ exists msg, total_board_cards holdem_info 4 = Panic msg.
Proof.
  split.
  - apply (proj1 (total_board_cards_sum holdem_info 2)); eval_close.
  - apply (proj2 (total_board_cards_sum holdem_info 4)); eval_close.
Defined.

(** ** The deck *)

Lemma product_length (Rs Ss : list nat) :
  length (flat_map (fun r => map (fun su => mkCard r su) Ss) Rs) = (length Rs * length Ss)%nat.
Proof.
  induction Rs as [| r Rs IH]; simpl; [reflexivity |].
  rewrite length_app, length_map, IH. lia.
Qed.

Lemma product_elem (Rs Ss : list nat) (c : Card) :
  In c (flat_map (fun r => map (fun su => mkCard r su) Ss) Rs) <->
  In (card_rank c) Rs /\ In (card_suit c) Ss.
Proof.
  rewrite in_flat_map. split.
  - intros (r & Hr & Hc). apply in_map_iff in Hc as (su & <- & Hsu). simpl. auto.
  - destruct c as [r su]; simpl. intros [Hr Hsu]. exists r. split; [exact Hr |].
    apply in_map_iff. exists su. auto.
Qed.

Lemma product_NoDup (Rs Ss : list nat) :
  NoDup Rs -> NoDup Ss -> NoDup (flat_map (fun r => map (fun su => mkCard r su) Ss) Rs).
Proof.
  intros HR HS. induction Rs as [| r Rs IH]; simpl; [constructor |].
  apply NoDup_cons in HR as [Hr HR].
  apply NoDup_app. split; [| split; [| exact (IH HR)]].
  - apply NoDup_fmap_2_strong; [| exact HS]. intros x y _ _ H. injection H as ->. reflexivity.
  - intros c Hc Hc'. apply list_elem_of_In in Hc, Hc'.
    apply in_map_iff in Hc as (su & <- & _).
    apply product_elem in Hc' as [Hin _]. simpl in Hin.
    apply Hr. apply list_elem_of_In. exact Hin.
Qed.

(** [generate_deck] holds one card per rank among the first [num_ranks]
    rank variants and suit among the first [num_suits] suit variants, each
    once when the variants are distinct. *)
Theorem generate_deck_cards (rank_variants suit_variants : list nat) (gi : GameInfo) :
  length (generate_deck rank_variants suit_variants gi) =
    (min (num_ranks gi) (length rank_variants) * min (num_suits gi) (length suit_variants))%nat /\
  (forall c, In c (generate_deck rank_variants suit_variants gi) <->
     In (card_rank c) (take (num_ranks gi) rank_variants) /\
     In (card_suit c) (take (num_suits gi) suit_variants)) /\
  (NoDup rank_variants -> NoDup suit_variants -> NoDup (generate_deck rank_variants suit_variants gi)).
Proof.
  unfold generate_deck. split; [| split].
  - rewrite product_length, !length_take. reflexivity.
  - intros c. apply product_elem.
  - intros HR HS. apply product_NoDup; [apply (sublist_NoDup _ _ HR) | apply (sublist_NoDup _ _ HS)]; apply sublist_take.
Qed.

Lemma generate_deck_cards_witness :
  NoDup (generate_deck (seq 0 13) (seq 0 4) holdem_info) /\
  length (generate_deck (seq 0 13) (seq 0 4) holdem_info) = 52%nat.
Proof.
  split.
  - apply (proj2 (proj2 (generate_deck_cards (seq 0 13) (seq 0 4) holdem_info))); apply NoDup_seq.
  - rewrite (proj1 (generate_deck_cards (seq 0 13) (seq 0 4) holdem_info)). reflexivity.
Defined.

(** ** The deal *)

Lemma push_cards_eq (deck h : list Card) (c k : nat) :
  push_cards deck h c k =
    if (k =? 0)%nat || (c + k <=? length deck)%nat
    then Ret (h ++ take k (drop c deck), (c + k)%nat) else Panic "index out of bounds".
Proof.
  revert h c. induction k as [| k IH]; intros h c; cbn [push_cards].
  - simpl. rewrite take_0, app_nil_r, Nat.add_0_r. reflexivity.
  - destruct (deck !! c) as [x |] eqn:Hx.
    + pose proof (lookup_lt_Some _ _ _ Hx) as Hlt.
      rewrite IH, (drop_S _ _ _ Hx), <- app_assoc.
      replace (S c + k)%nat with (c + S k)%nat by lia.
      cbn [Nat.eqb orb take app].
      destruct (Nat.leb_spec (c + S k) (length deck)); [rewrite orb_true_r; reflexivity |].
      destruct k; [lia | reflexivity].
    + apply lookup_ge_None in Hx. simpl.
      destruct (Nat.leb_spec (c + S k) (length deck)); [lia | reflexivity].
Qed.

Lemma hole_slices_lookup (deck : list Card) (nh k j : nat) :
  hole_slices deck nh k !! j =
    if (j <? MAX_PLAYERS)%nat then Some (if (j <? k)%nat then take nh (drop (j * nh) deck) else [])
    else None.
Proof.
  unfold hole_slices. rewrite list_lookup_fmap.
  destruct (Nat.ltb_spec j MAX_PLAYERS).
  - rewrite lookup_seq_lt by exact H. reflexivity.
  - rewrite lookup_seq_ge by exact H. reflexivity.
Qed.

Lemma hole_slices_insert (deck : list Card) (nh a : nat) :
  (a < MAX_PLAYERS)%nat ->
  <[a := take nh (drop (a * nh) deck)]> (hole_slices deck nh a) = hole_slices deck nh (S a).
Proof.
  intros Ha. apply list_eq. intros j.
  assert (Hl : length (hole_slices deck nh a) = MAX_PLAYERS)
    by (unfold hole_slices; rewrite length_fmap, length_seq; reflexivity).
  rewrite list_lookup_insert, Hl, !hole_slices_lookup.
  destruct (decide _) as [[<- _] | Hn].
  - destruct (Nat.ltb_spec a MAX_PLAYERS); [| lia].
    destruct (Nat.ltb_spec a (S a)); [reflexivity | lia].
  - destruct (Nat.ltb_spec j MAX_PLAYERS); [| reflexivity].
    destruct (Nat.ltb_spec j a); destruct (Nat.ltb_spec j (S a)); try reflexivity; try lia.
Qed.

Lemma hole_slices_nh0 (deck : list Card) (k : nat) :
  hole_slices deck 0 k = hole_slices deck 0 0.
Proof.
  unfold hole_slices. apply list_fmap_ext. intros i x _.
  destruct (x <? k)%nat; reflexivity.
Qed.

Lemma deal_holes_eq (deck : list Card) (nh a m : nat) :
  nh = 0%nat \/ (a <= MAX_PLAYERS /\ a * nh <= length deck)%nat ->
  deal_holes deck nh (seq a m) (hole_slices deck nh a) (a * nh) =
    if (nh =? 0)%nat || ((a + m <=? MAX_PLAYERS)%nat && ((a + m) * nh <=? length deck)%nat)
    then Ret (hole_slices deck nh (a + m), ((a + m) * nh)%nat)
    else Panic "index out of bounds".
Proof.
  revert a. induction m as [| m IH]; intros a Hpre; cbn [seq deal_holes].
  - rewrite Nat.add_0_r. destruct Hpre as [-> | [H1 H2]].
    + reflexivity.
    + destruct (Nat.leb_spec a MAX_PLAYERS); [| lia].
      destruct (Nat.leb_spec (a * nh) (length deck)); [| lia].
      rewrite orb_true_r. reflexivity.
  - destruct (Nat.eqb_spec nh 0) as [-> | Hnh].
    + rewrite !Nat.mul_0_r.
      rewrite (hole_slices_nh0 deck a), <- (hole_slices_nh0 deck (S a)).
      pose proof (IH (S a) (or_introl eq_refl)) as IH'. rewrite Nat.mul_0_r in IH'.
      rewrite IH', !Nat.mul_0_r, (hole_slices_nh0 deck (S a + m)), (hole_slices_nh0 deck (a + S m)). reflexivity.
    + destruct Hpre as [? | [H1 H2]]; [lia |].
      rewrite hole_slices_lookup. simpl.
      destruct (Nat.ltb_spec a MAX_PLAYERS) as [Ha | Ha].
      * destruct (Nat.ltb_spec a a); [lia |].
        unfold mbind, outcome_bind. rewrite push_cards_eq.
        destruct (Nat.eqb_spec nh 0); [lia |].
        destruct (Nat.leb_spec (a * nh + nh) (length deck)) as [Hc | Hc]; simpl.
        -- rewrite hole_slices_insert by exact Ha.
           replace (a * nh + nh)%nat with (S a * nh)%nat by lia.
           rewrite IH by (right; split; lia).
           rewrite Nat.add_succ_r. reflexivity.
        -- destruct (Nat.leb_spec (a + S m) MAX_PLAYERS); [| reflexivity].
           destruct (Nat.leb_spec ((a + S m) * nh) (length deck)); [nia | reflexivity].
      * simpl. destruct (Nat.leb_spec (a + S m) MAX_PLAYERS); [lia | reflexivity].
Qed.

Lemma concat_hole_slices (deck : list Card) (nh n k : nat) :
  concat ((fun j => if (j <? n)%nat then take nh (drop (j * nh) deck) else []) <$> seq 0 k) =
  take (min k n * nh) deck.
Proof.
  induction k as [| k IH]; [reflexivity |].
  rewrite seq_S, fmap_app, concat_app, IH. simpl. rewrite app_nil_r.
  destruct (Nat.ltb_spec k n).
  - replace (min k n) with k by lia.
    rewrite take_take_drop. f_equal. destruct n as [| n]; [lia |].
    replace (min k n) with k by lia. simpl. lia.
  - rewrite app_nil_r. f_equal. destruct n as [| n]; [rewrite Nat.min_0_r; reflexivity |].
    replace (min k n) with n by lia. replace (min k (S n)) with (S n) by lia. reflexivity.
Qed.

Lemma deal_hole_cards_and_board_cards_spec (gi : GameInfo) (deck : list Card) (tb : nat) :
  length (num_board_cards gi) <> 0%nat ->
  total_board_cards gi ((length (num_board_cards gi) - 1) mod 256) = Ret tb ->
  deal_hole_cards_and_board_cards gi deck =
    if ((num_hole_cards gi =? 0)%nat || (num_players gi <=? MAX_PLAYERS)%nat) &&
       (num_players gi * num_hole_cards gi + tb <=? length deck)%nat
    then Ret (hole_slices deck (num_hole_cards gi) (num_players gi),
              take tb (drop (num_players gi * num_hole_cards gi) deck))
    else Panic "index out of bounds".
Proof.
  intros Hnbc Htb. unfold deal_hole_cards_and_board_cards, mbind, outcome_bind.
  destruct (Nat.eqb_spec (length (num_board_cards gi)) 0) as [Hz | _]; [contradiction |].
  rewrite Htb.
  set (nh := num_hole_cards gi). set (n := num_players gi).
  assert (H0 : replicate MAX_PLAYERS [] = hole_slices deck nh 0) by reflexivity.
  rewrite H0.
  pose proof (deal_holes_eq deck nh 0 n) as Hd. cbn [Nat.add Nat.mul] in Hd.
  rewrite Hd by (destruct (Nat.eqb_spec nh 0); [left; assumption | right; lia]).
  destruct (Nat.eqb_spec nh 0) as [Hnh | Hnh]; cbn [orb andb].
  - rewrite push_cards_eq. rewrite Hnh, Nat.mul_0_r. cbn [Nat.add].
    destruct (Nat.eqb_spec tb 0) as [-> | ]; cbn [orb].
    + destruct (Nat.leb_spec 0 (length deck)); [reflexivity | lia].
    + destruct (tb <=? length deck)%nat; reflexivity.
  - destruct (Nat.leb_spec n MAX_PLAYERS) as [Hn | Hn]; cbn [andb]; [| reflexivity].
    destruct (Nat.leb_spec (n * nh) (length deck)) as [Hc | Hc].
    + rewrite push_cards_eq.
      destruct (Nat.eqb_spec tb 0) as [-> | ]; cbn [orb].
      * rewrite Nat.add_0_r. destruct (Nat.leb_spec (n * nh) (length deck)); [reflexivity | lia].
      * destruct (n * nh + tb <=? length deck)%nat; reflexivity.
    + destruct (Nat.leb_spec (n * nh + tb) (length deck)); [lia | reflexivity].
Qed.

(** [deal_hole_cards_and_board_cards] deals, from the shuffled deck, the
    cards [j * nh .. j * nh + nh - 1] to player [j < num_players], nothing
    to the other seats, and the next [total_board_cards] cards to the
    board; it panics when the deck is too short, or when there are more
    than [MAX_PLAYERS] players and hole cards to deal. *)
Theorem deal_hole_cards_and_board_cards_eq (gi : GameInfo) (deck : list Card) (tb : nat) :
  length (num_board_cards gi) <> 0%nat ->
  total_board_cards gi ((length (num_board_cards gi) - 1) mod 256) = Ret tb ->
  deal_hole_cards_and_board_cards gi deck =
    if ((num_hole_cards gi =? 0)%nat || (num_players gi <=? MAX_PLAYERS)%nat) &&
       (num_players gi * num_hole_cards gi + tb <=? length deck)%nat
    then Ret (hole_slices deck (num_hole_cards gi) (num_players gi),
              take tb (drop (num_players gi * num_hole_cards gi) deck))
    else Panic "index out of bounds".
Proof. exact (deal_hole_cards_and_board_cards_spec gi deck tb). Qed.

(** No card is dealt twice when the deck is a shuffle of [generate_deck]
    with distinct rank and suit variants. *)
Theorem deal_no_card_twice (rank_variants suit_variants : list nat) (gi : GameInfo)
    (deck : list Card) (hole : list (list Card)) (board : list Card) :
  NoDup rank_variants -> NoDup suit_variants ->
  Permutation deck (generate_deck rank_variants suit_variants gi) ->
  deal_hole_cards_and_board_cards gi deck = Ret (hole, board) ->
  NoDup (concat hole ++ board).
Proof.
  intros HR HS Hperm H.
  assert (Hnd : NoDup deck).
  { rewrite Hperm. unfold generate_deck.
    apply product_NoDup; eapply sublist_NoDup; [exact HR | | exact HS |]; apply sublist_take. }
  pose proof H as H'. unfold deal_hole_cards_and_board_cards, mbind, outcome_bind in H'.
  destruct (deal_holes _ _ _ _ _) as [[hole0 c] | | | |]; try discriminate.
  destruct (Nat.eqb_spec (length (num_board_cards gi)) 0) as [| Hnbc]; [discriminate |].
  destruct (total_board_cards _ _) as [tb | | | |] eqn:Htb; try discriminate.
  rewrite (deal_hole_cards_and_board_cards_spec gi deck tb Hnbc Htb) in H.
  destruct (_ && _) eqn:Hc; [| discriminate].
  injection H as <- <-.
  apply andb_prop in Hc as [Hc1 Hc2]. apply Nat.leb_le in Hc2.
  unfold hole_slices. rewrite concat_hole_slices.
  replace (min MAX_PLAYERS (num_players gi) * num_hole_cards gi)%nat
    with (num_players gi * num_hole_cards gi)%nat.
  - rewrite take_take_drop. eapply sublist_NoDup; [exact Hnd | apply sublist_take].
  - apply orb_prop in Hc1 as [Hc1 | Hc1].
    + apply Nat.eqb_eq in Hc1. rewrite Hc1. lia.
    + apply Nat.leb_le in Hc1. f_equal. lia.
Qed.

Lemma deal_hole_cards_and_board_cards_eq_witness :
  length (num_board_cards holdem_info) <> 0%nat /\
  total_board_cards holdem_info ((length (num_board_cards holdem_info) - 1) mod 256) = Ret 5%nat /\
  deal_hole_cards_and_board_cards holdem_info (generate_deck (seq 0 13) (seq 0 4) holdem_info) =
    Ret (hole_slices (generate_deck (seq 0 13) (seq 0 4) holdem_info) 2 2,
         take 5 (drop 4 (generate_deck (seq 0 13) (seq 0 4) holdem_info))).
Proof.
  assert (H1 : length (num_board_cards holdem_info) <> 0%nat) by (vm_compute; discriminate).
  assert (H2 : total_board_cards holdem_info ((length (num_board_cards holdem_info) - 1) mod 256)
               = Ret 5%nat) by (vm_compute; reflexivity).
  split; [exact H1 | split; [exact H2 |]].
  rewrite (deal_hole_cards_and_board_cards_eq holdem_info _ 5 H1 H2). vm_compute. reflexivity.
Defined.

Lemma deal_no_card_twice_witness :
  exists hole board,
    deal_hole_cards_and_board_cards holdem_info (rev (generate_deck (seq 0 13) (seq 0 4) holdem_info))
      = Ret (hole, board) /\
    NoDup (concat hole ++ board).
Proof.
  eexists _, _.
  assert (Hd : deal_hole_cards_and_board_cards holdem_info
                 (rev (generate_deck (seq 0 13) (seq 0 4) holdem_info)) = Ret (_, _))
    by (vm_compute; reflexivity).
  split; [exact Hd |].
  apply (deal_no_card_twice (seq 0 13) (seq 0 4) holdem_info
           (rev (generate_deck (seq 0 13) (seq 0 4) holdem_info))).
  - apply NoDup_seq.
  - apply NoDup_seq.
  - apply Permutation_sym, Permutation_rev.
  - exact Hd.
Defined.

(** ** [NoBuckets::get_bucket] *)

Lemma hole_board_bucket_pos (ns nr : N) (cards : list Card) (a m : nat) (b : N) :
  hole_bucket ns nr cards (seq (S a) m) b = board_bucket ns nr cards (seq (S a) m) b.
Proof.
  revert a b. induction m as [| m IH]; intros a b; [reflexivity |].
  cbn [seq hole_bucket board_bucket]. cbn [Nat.ltb Nat.leb].
  unfold mbind, outcome_bind.
  destruct (mul_u32 ns nr) as [x | | | |]; try reflexivity.
  destruct (mul_u32 b x) as [y | | | |]; try reflexivity.
  destruct (card_value cards (S a) ns) as [v | | | |]; try reflexivity.
  destruct (add_u32 y v) as [z | | | |]; try reflexivity.
  apply IH.
Qed.

Lemma mul_u32_ok (x y : N) : x * y <= u32_max -> mul_u32 x y = Ret (x * y).
Proof. intros H. unfold mul_u32. destruct (N.leb_spec (x * y) u32_max); [reflexivity | lia]. Qed.

Lemma add_u32_ok (x y : N) : x + y <= u32_max -> add_u32 x y = Ret (x + y).
Proof. intros H. unfold add_u32. destruct (N.leb_spec (x + y) u32_max); [reflexivity | lia]. Qed.

Lemma hole_board_bucket_0 (ns nr : N) (cards : list Card) (m : nat) :
  ns * nr <= u32_max ->
  hole_bucket ns nr cards (seq 0 m) 0 = board_bucket ns nr cards (seq 0 m) 0.
Proof.
  intros HB. destruct m as [| m]; [reflexivity |].
  cbn [seq hole_bucket board_bucket]. cbn [Nat.ltb Nat.leb].
  unfold mbind, outcome_bind at 1. rewrite (mul_u32_ok _ _ HB).
  cbn [outcome_bind]. rewrite (mul_u32_ok 0 (ns * nr)) by lia. rewrite N.mul_0_l.
  cbn [outcome_bind].
  destruct (card_value cards 0 ns) as [v | | | |]; cbn [outcome_bind]; try reflexivity.
  destruct (add_u32 0 v) as [z | | | |]; cbn [outcome_bind]; try reflexivity.
  apply hole_board_bucket_pos.
Qed.

Lemma digits_fold_shift (B : N) (ds : list N) (b : N) :
  fold_left (fun acc d => acc * B + d) ds b = b * B ^ N.of_nat (length ds) + digits_val B ds.
Proof.
  unfold digits_val. revert b. induction ds as [| d ds IH]; intros b; simpl.
  - lia.
  - rewrite (IH (b * B + d)), (IH (0 * B + d)).
    rewrite Nat2N.inj_succ, N.pow_succ_r'. nia.
Qed.

Lemma digits_val_bound (B : N) (ds : list N) :
  Forall (fun d => d < B) ds -> digits_val B ds < B ^ N.of_nat (length ds).
Proof.
  induction ds as [| d ds IH] using rev_ind; intros Hds; [unfold digits_val; cbn; lia |].
  apply Forall_app in Hds as [Hds Hd]. apply Forall_cons_1 in Hd as [Hd _].
  unfold digits_val in *. rewrite fold_left_app. simpl.
  rewrite length_app, Nat2N.inj_add, N.pow_add_r. simpl.
  specialize (IH Hds). rewrite N.pow_1_r. nia.
Qed.

Lemma card_digit_bound (ns nr : nat) (c : Card) :
  card_ok ns nr c -> card_digit (N.of_nat ns) c < N.of_nat ns * N.of_nat nr.
Proof. unfold card_ok, card_digit. intros [Hr Hs]. nia. Qed.

Lemma board_bucket_eval (ns nr : nat) (cards : list Card) (a m : nat) (b : N) :
  (ns <= 255)%nat -> (nr <= 255)%nat ->
  (b + 1) * (N.of_nat ns * N.of_nat nr) ^ N.of_nat m <= 2 ^ 32 ->
  Forall (card_ok ns nr) (take m (drop a cards)) ->
  board_bucket (N.of_nat ns) (N.of_nat nr) cards (seq a m) b =
    if (m =? 0)%nat || (a + m <=? length cards)%nat
    then Ret (fold_left (fun acc d => acc * (N.of_nat ns * N.of_nat nr) + d)
                (card_digit (N.of_nat ns) <$> take m (drop a cards)) b)
    else Panic "index out of bounds".
Proof.
  intros Hns Hnr. revert a b. induction m as [| m IH]; intros a b Hb Hok.
  - cbn [seq board_bucket]. rewrite take_0. reflexivity.
  - set (B := N.of_nat ns * N.of_nat nr) in *.
    assert (HB : B <= u32_max) by (unfold B, u32_max; nia).
    cbn [seq board_bucket]. unfold mbind.
    rewrite (mul_u32_ok _ _ HB). cbn [outcome_bind]. fold B.
    assert (HP : 1 <= B ^ N.of_nat m \/ B = 0).
    { destruct (N.eqb_spec B 0) as [| HB0]; [right; assumption | left].
      pose proof (N.pow_nonzero B (N.of_nat m) HB0). lia. }
    rewrite Nat2N.inj_succ, N.pow_succ_r' in Hb.
    assert (Hm : b * B <= u32_max).
    { unfold u32_max. destruct HP as [HP | ->]; nia. }
    rewrite (mul_u32_ok _ _ Hm). cbn [outcome_bind].
    unfold card_value. destruct (cards !! a) as [c |] eqn:Hc.
    + rewrite (drop_S _ _ _ Hc) in Hok |- *. cbn [take fmap list_fmap fold_left].
      apply Forall_cons_1 in Hok as [[Hr Hs] Hok].
      assert (Hd : card_digit (N.of_nat ns) c < B) by (apply card_digit_bound; split; assumption).
      unfold card_digit in Hd.
      rewrite (mul_u32_ok (N.of_nat (card_rank c)) (N.of_nat ns)) by (unfold u32_max; nia).
      unfold mbind. cbn [outcome_bind].
      rewrite (add_u32_ok (N.of_nat (card_rank c) * N.of_nat ns) (N.of_nat (card_suit c)))
        by (unfold u32_max, B in *; lia).
      cbn [outcome_bind].
      assert (HBpos : 1 <= B ^ N.of_nat m) by (destruct HP as [HP | HB0]; [exact HP | lia]).
      rewrite add_u32_ok by (unfold u32_max; nia).
      cbn [outcome_bind].
      rewrite IH.
      * replace (S a + m)%nat with (a + S m)%nat by lia. cbn [Nat.eqb orb].
        destruct m as [| m]; cbn [Nat.eqb orb].
        -- pose proof (lookup_lt_Some _ _ _ Hc).
           destruct (Nat.leb_spec (a + 1) (length cards)); [reflexivity | lia].
        -- reflexivity.
      * nia.
      * exact Hok.
    + apply lookup_ge_None in Hc. cbn [Nat.eqb orb].
      destruct (Nat.leb_spec (a + S m) (length cards)); [lia | reflexivity].
Qed.

Lemma digits_val_cons (B d : N) (ds : list N) :
  digits_val B (d :: ds) = d * B ^ N.of_nat (length ds) + digits_val B ds.
Proof. unfold digits_val at 1. simpl. rewrite digits_fold_shift. lia. Qed.

Lemma radix_unique (P d1 d2 x1 x2 : N) :
  x1 < P -> x2 < P -> d1 * P + x1 = d2 * P + x2 -> d1 = d2 /\ x1 = x2.
Proof.
  intros H1 H2 H. destruct (N.lt_trichotomy d1 d2) as [Hlt | [-> | Hlt]].
  - exfalso. assert (d1 * P + P <= d2 * P) by nia. lia.
  - split; [reflexivity | lia].
  - exfalso. assert (d2 * P + P <= d1 * P) by nia. lia.
Qed.

Lemma digits_val_inj (B : N) (ds1 ds2 : list N) :
  length ds1 = length ds2 ->
  Forall (fun d => d < B) ds1 -> Forall (fun d => d < B) ds2 ->
  digits_val B ds1 = digits_val B ds2 -> ds1 = ds2.
Proof.
  revert ds2. induction ds1 as [| d1 ds1 IH]; intros [| d2 ds2] Hl H1 H2 Hv;
    try discriminate; [reflexivity |].
  injection Hl as Hl.
  apply Forall_cons_1 in H1 as [_ H1]. apply Forall_cons_1 in H2 as [_ H2].
  rewrite !digits_val_cons, <- Hl in Hv.
  apply radix_unique in Hv as [-> Hv];
    [| apply digits_val_bound; exact H1 | rewrite Hl; apply digits_val_bound; exact H2].
  f_equal. apply IH; assumption.
Qed.

Lemma card_digits_inj (ns nr : nat) (cs1 cs2 : list Card) :
  Forall (card_ok ns nr) cs1 -> Forall (card_ok ns nr) cs2 ->
  card_digit (N.of_nat ns) <$> cs1 = card_digit (N.of_nat ns) <$> cs2 -> cs1 = cs2.
Proof.
  revert cs2. induction cs1 as [| c1 cs1 IH]; intros [| c2 cs2] H1 H2 He;
    try discriminate; [reflexivity |].
  cbn [fmap list_fmap] in He. injection He as Hc He.
  apply Forall_cons_1 in H1 as [[Hr1 Hs1] H1]. apply Forall_cons_1 in H2 as [[Hr2 Hs2] H2].
  unfold card_digit in Hc.
  apply radix_unique in Hc as [Hr Hs]; [| lia | lia].
  destruct c1, c2; simpl in *. f_equal; [f_equal; lia | apply IH; assumption].
Qed.

Lemma card_digits_bound (ns nr : nat) (cs : list Card) :
  Forall (card_ok ns nr) cs ->
  Forall (fun d => d < N.of_nat ns * N.of_nat nr) (card_digit (N.of_nat ns) <$> cs).
Proof.
  intros H. apply Forall_fmap. eapply Forall_impl; [exact H |].
  intros c Hc. apply card_digit_bound. exact Hc.
Qed.

Lemma NoBuckets_get_bucket_eval (nb : NoBuckets) (board hole : list Card) :
  (nb_num_suits nb <= 255)%nat -> (nb_num_ranks nb <= 255)%nat ->
  (N.of_nat (nb_num_suits nb) * N.of_nat (nb_num_ranks nb))
    ^ N.of_nat (nb_num_hole_cards nb + nb_num_board_cards nb) <= 2 ^ 32 ->
  Forall (card_ok (nb_num_suits nb) (nb_num_ranks nb)) (take (nb_num_hole_cards nb) hole) ->
  Forall (card_ok (nb_num_suits nb) (nb_num_ranks nb)) (take (nb_num_board_cards nb) board) ->
  NoBuckets_get_bucket nb board hole =
    if (nb_num_hole_cards nb <=? length hole)%nat && (nb_num_board_cards nb <=? length board)%nat
    then Ret (digits_val (N.of_nat (nb_num_suits nb) * N.of_nat (nb_num_ranks nb))
                (card_digit (N.of_nat (nb_num_suits nb)) <$>
                   (take (nb_num_hole_cards nb) hole ++ take (nb_num_board_cards nb) board)))
    else Panic "index out of bounds".
Proof.
  destruct nb as [ns nr nbc nh]; cbn [nb_num_suits nb_num_ranks nb_num_board_cards nb_num_hole_cards].
  intros Hns Hnr Hpow Hh Hb. unfold NoBuckets_get_bucket. cbv zeta.
  cbn [nb_num_suits nb_num_ranks nb_num_board_cards nb_num_hole_cards].
  set (B := N.of_nat ns * N.of_nat nr) in *.
  assert (HB : N.of_nat ns * N.of_nat nr <= u32_max) by (unfold u32_max; nia).
  assert (Hpow_le : forall k j, (j <= k)%nat -> B ^ N.of_nat j <= B ^ N.of_nat k \/ B = 0).
  { intros k j Hjk. destruct (N.eqb_spec B 0) as [| HB0]; [right; assumption | left].
    apply N.pow_le_mono_r; lia. }
  rewrite (hole_board_bucket_0 _ _ _ _ HB).
  rewrite (board_bucket_eval ns nr hole 0 nh 0 Hns Hnr); [| | rewrite drop_0; exact Hh].
  2: { fold B. destruct (Hpow_le (nh + nbc)%nat nh ltac:(lia)) as [H | ->]; [lia |].
       destruct nh; [simpl; lia | rewrite N.pow_0_l by lia; lia]. }
  rewrite drop_0. fold B. cbn [Nat.add].
  destruct (Nat.leb_spec nh (length hole)) as [Hlh | Hlh].
  - rewrite orb_true_r. unfold mbind. cbn [outcome_bind andb].
    assert (Hv : fold_left (fun acc d => acc * B + d) (card_digit (N.of_nat ns) <$> take nh hole) 0
                 = digits_val B (card_digit (N.of_nat ns) <$> take nh hole)) by reflexivity.
    rewrite Hv.
    assert (Hlen : length (card_digit (N.of_nat ns) <$> take nh hole) = nh)
      by (rewrite length_fmap, length_take; lia).
    pose proof (digits_val_bound B _ (card_digits_bound _ _ _ Hh)) as Hvb.
    rewrite Hlen in Hvb.
    rewrite (board_bucket_eval ns nr board 0 nbc _ Hns Hnr); [| | rewrite drop_0; exact Hb].
    + rewrite drop_0, fmap_app. unfold digits_val at 2. rewrite fold_left_app.
      cbn [Nat.add]. destruct (Nat.leb_spec nbc (length board)).
      * rewrite orb_true_r. reflexivity.
      * destruct nbc; [lia | reflexivity].
    + fold B. rewrite Nat2N.inj_add, N.pow_add_r in Hpow. nia.
  - destruct nh; [lia |]. reflexivity.
Qed.

(** When [num_suits * num_ranks] raised to the number of cards fits in
    [u32] and every card has a rank below [num_ranks] and a suit below
    [num_suits], [get_bucket] reads the hole cards and then the board cards
    as the digits of a number in base [num_suits * num_ranks], each card
    being the digit [rank * num_suits + suit]; it panics when a slice is
    shorter than the number of cards the bucketing reads. *)
Theorem NoBuckets_get_bucket_value (nb : NoBuckets) (board hole : list Card) :
  (nb_num_suits nb <= 255)%nat -> (nb_num_ranks nb <= 255)%nat ->
  (N.of_nat (nb_num_suits nb) * N.of_nat (nb_num_ranks nb))
    ^ N.of_nat (nb_num_hole_cards nb + nb_num_board_cards nb) <= 2 ^ 32 ->
  Forall (card_ok (nb_num_suits nb) (nb_num_ranks nb)) (take (nb_num_hole_cards nb) hole) ->
  Forall (card_ok (nb_num_suits nb) (nb_num_ranks nb)) (take (nb_num_board_cards nb) board) ->
  NoBuckets_get_bucket nb board hole =
    if (nb_num_hole_cards nb <=? length hole)%nat && (nb_num_board_cards nb <=? length board)%nat
    then Ret (digits_val (N.of_nat (nb_num_suits nb) * N.of_nat (nb_num_ranks nb))
                (card_digit (N.of_nat (nb_num_suits nb)) <$>
                   (take (nb_num_hole_cards nb) hole ++ take (nb_num_board_cards nb) board)))
    else Panic "index out of bounds".
Proof. exact (NoBuckets_get_bucket_eval nb board hole). Qed.

(** Under the same bounds, [get_bucket] loses no information: two hands
    that get the same bucket have the same hole cards and the same board
    cards among those the bucketing reads. *)
Theorem NoBuckets_get_bucket_injective (nb : NoBuckets) (board1 hole1 board2 hole2 : list Card) (v : N) :
  (nb_num_suits nb <= 255)%nat -> (nb_num_ranks nb <= 255)%nat ->
  (N.of_nat (nb_num_suits nb) * N.of_nat (nb_num_ranks nb))
    ^ N.of_nat (nb_num_hole_cards nb + nb_num_board_cards nb) <= 2 ^ 32 ->
  Forall (card_ok (nb_num_suits nb) (nb_num_ranks nb)) (take (nb_num_hole_cards nb) hole1) ->
  Forall (card_ok (nb_num_suits nb) (nb_num_ranks nb)) (take (nb_num_board_cards nb) board1) ->
  Forall (card_ok (nb_num_suits nb) (nb_num_ranks nb)) (take (nb_num_hole_cards nb) hole2) ->
  Forall (card_ok (nb_num_suits nb) (nb_num_ranks nb)) (take (nb_num_board_cards nb) board2) ->
  NoBuckets_get_bucket nb board1 hole1 = Ret v ->
  NoBuckets_get_bucket nb board2 hole2 = Ret v ->
  take (nb_num_hole_cards nb) hole1 = take (nb_num_hole_cards nb) hole2 /\
  take (nb_num_board_cards nb) board1 = take (nb_num_board_cards nb) board2.
Proof.
  intros Hns Hnr Hpow Hh1 Hb1 Hh2 Hb2 E1 E2.
  rewrite (NoBuckets_get_bucket_eval nb board1 hole1 Hns Hnr Hpow Hh1 Hb1) in E1.
  rewrite (NoBuckets_get_bucket_eval nb board2 hole2 Hns Hnr Hpow Hh2 Hb2) in E2.
  destruct (Nat.leb_spec (nb_num_hole_cards nb) (length hole1)); [| discriminate].
  destruct (Nat.leb_spec (nb_num_board_cards nb) (length board1)); [| discriminate].
  destruct (Nat.leb_spec (nb_num_hole_cards nb) (length hole2)); [| discriminate].
  destruct (Nat.leb_spec (nb_num_board_cards nb) (length board2)); [| discriminate].
  cbn [andb] in E1, E2. injection E1 as E1. injection E2 as E2.
  rewrite <- E2 in E1.
  assert (Hok1 : Forall (card_ok (nb_num_suits nb) (nb_num_ranks nb))
                   (take (nb_num_hole_cards nb) hole1 ++ take (nb_num_board_cards nb) board1))
    by (apply Forall_app; split; assumption).
  assert (Hok2 : Forall (card_ok (nb_num_suits nb) (nb_num_ranks nb))
                   (take (nb_num_hole_cards nb) hole2 ++ take (nb_num_board_cards nb) board2))
    by (apply Forall_app; split; assumption).
  apply digits_val_inj in E1;
    [| rewrite !length_fmap, !length_app, !length_take; lia
     | apply card_digits_bound; exact Hok1 | apply card_digits_bound; exact Hok2].
  apply (card_digits_inj (nb_num_suits nb) (nb_num_ranks nb)) in E1; [| exact Hok1 | exact Hok2].
  apply app_inj_1 in E1; [exact E1 |]. rewrite !length_take. lia.
Qed.

Lemma NoBuckets_get_bucket_value_witness :
  NoBuckets_new holdem_info 1 = Ret holdem_flop_buckets /\
  NoBuckets_get_bucket holdem_flop_buckets holdem_flop_board holdem_flop_hole =
    Ret (digits_val 52 [51; 0; 21; 30; 36]).
Proof.
  split; [vm_compute; reflexivity |].
  rewrite (NoBuckets_get_bucket_value holdem_flop_buckets holdem_flop_board holdem_flop_hole).
  - vm_compute. reflexivity.
  - cbn; lia.
  - cbn; lia.
  - apply N.leb_le. vm_compute. reflexivity.
  - cbn. repeat (apply Forall_cons_2; [unfold card_ok; cbn; lia |]). apply Forall_nil_2.
  - cbn. repeat (apply Forall_cons_2; [unfold card_ok; cbn; lia |]). apply Forall_nil_2.
Defined.

Lemma NoBuckets_get_bucket_injective_witness :
  take 2 holdem_flop_hole = take 2 holdem_flop_hole /\
  take 3 holdem_flop_board = take 3 holdem_flop_board.
Proof.
  apply (NoBuckets_get_bucket_injective holdem_flop_buckets holdem_flop_board holdem_flop_hole
           holdem_flop_board holdem_flop_hole (digits_val 52 [51; 0; 21; 30; 36])).
  - cbn; lia.
  - cbn; lia.
  - apply N.leb_le. vm_compute. reflexivity.
  - cbn. repeat (apply Forall_cons_2; [unfold card_ok; cbn; lia |]). apply Forall_nil_2.
  - cbn. repeat (apply Forall_cons_2; [unfold card_ok; cbn; lia |]). apply Forall_nil_2.
  - cbn. repeat (apply Forall_cons_2; [unfold card_ok; cbn; lia |]). apply Forall_nil_2.
  - cbn. repeat (apply Forall_cons_2; [unfold card_ok; cbn; lia |]). apply Forall_nil_2.
  - vm_compute. reflexivity.
  - vm_compute. reflexivity.
Defined.

(** ** [ActionAbstraction::get_actions] and [abstract_raise_to_real] *)

Lemma collect_raises_eq {F : Type} (l : list (AbstractRaise F)) (rnd nr : nat) (acc : list (AbstractRaise F)) :
  collect_raises l rnd nr acc =
    if forallb (fun ar => (rnd <? length (round_config ar))%nat) l
    then Ret (acc ++ List.filter (fun ar => match round_config ar !! rnd with
                                            | Some cfg => config_allows cfg nr
                                            | None => false end) l)
    else Panic "index out of bounds".
Proof.
  revert acc. induction l as [| ar l IH]; intros acc; cbn [collect_raises forallb List.filter].
  - rewrite app_nil_r. reflexivity.
  - destruct (round_config ar !! rnd) as [cfg |] eqn:Hc.
    + pose proof (lookup_lt_Some _ _ _ Hc) as Hlt.
      destruct (Nat.ltb_spec rnd (length (round_config ar))); [| lia]. cbn [andb].
      rewrite IH. destruct (forallb _ l); [| reflexivity].
      destruct (config_allows cfg nr); rewrite <- ?app_assoc; reflexivity.
    + apply lookup_ge_None in Hc.
      destruct (Nat.ltb_spec rnd (length (round_config ar))); [lia | reflexivity].
Qed.

(** [get_actions] offers only [Fold] and [Call], each exactly when it is a
    valid action in the state, and never a raise; it panics when one of the
    abstraction's raises has no configuration for the current round. *)
Theorem get_actions_eq {F : Type} (aa : ActionAbstraction F) (gi : GameInfo) (s : GameState) :
  get_actions aa gi s =
    if forallb (fun ar => (round s <? length (round_config ar))%nat) (possible_raises aa)
    then Ret (List.filter (is_valid_action gi s) [Fold; Call])
    else Panic "index out of bounds".
Proof.
  unfold get_actions, mbind. rewrite collect_raises_eq.
  destruct (forallb _ _); [| reflexivity]. cbn [outcome_bind List.filter].
  destruct (is_valid_action gi s Fold), (is_valid_action gi s Call); reflexivity.
Qed.

(** [abstract_raise_to_real] only ever yields a raise, only one that is a
    valid action in the state, and only when the raise's configuration for
    the current round allows it ([Always], or [Before i] with fewer than [i]
    raises made in the round). *)
Theorem abstract_raise_to_real_sound {F : Type} (pot_ratio : N -> F -> N) (gi : GameInfo)
    (s : GameState) (ar : AbstractRaise F) (a : Action) :
  abstract_raise_to_real pot_ratio gi s ar = Ret (Some a) ->
  (exists r, a = Raise r) /\ is_valid_action gi s a = true /\
  exists cfg, round_config ar !! round s = Some cfg /\ config_allows cfg (num_raises s) = true.
Proof.
  unfold abstract_raise_to_real, mbind, outcome_bind.
  destruct (round_config ar !! round s) as [cfg |]; [| discriminate].
  destruct (config_allows cfg (num_raises s)) eqn:Hcfg; cbn [negb]; [| discriminate].
  intros H.
  destruct (raise_type ar) as [| q | i];
    [| | destruct (betting_type gi); [| destruct (add_u32 (max_spent s) i) as [m | | | |]]];
    cbn [outcome_bind] in H; try discriminate;
    (destruct (is_valid_action gi s _) eqn:Hv; [| discriminate];
     injection H as <-; split; [eexists; reflexivity |];
     split; [exact Hv | exists cfg; split; [reflexivity | exact Hcfg]]).
Qed.

Lemma abstract_raise_to_real_sound_witness :
  abstract_raise_to_real (fun ms r => ms * r) holdem_info (ret_state (new_state holdem_info 0)) allin_raise
    = Ret (Some (Raise 100)) /\
  is_valid_action holdem_info (ret_state (new_state holdem_info 0)) (Raise 100) = true.
Proof.
  assert (H : abstract_raise_to_real (fun ms r => ms * r) holdem_info
                (ret_state (new_state holdem_info 0)) allin_raise = Ret (Some (Raise 100)))
    by (vm_compute; reflexivity).
  split; [exact H |].
  exact (proj1 (proj2 (abstract_raise_to_real_sound _ _ _ _ _ H))).
Defined.

(** ** The no-limit betting order *)

Lemma post_blind_order (gi : GameInfo) (l : list nat) acc :
  (forall p, acc.1.1.1 @ p <= acc.1.2) ->
  forall p, (fold_left (post_blind gi) l acc).1.1.1 @ p <= (fold_left (post_blind gi) l acc).1.2.
Proof.
  revert acc. induction l as [| i l IH]; intros [[[sp srs0] ms] folded] H; [exact H |].
  cbn [fold_left]. apply IH. cbn [post_blind fst snd] in *. intros p.
  rewrite get_insert. specialize (H p). destruct (decide _); case_cmp; lia.
Qed.

Lemma new_state_nl_order (gi : GameInfo) (hid : N) (s : GameState) :
  betting_type gi = NoLimit -> new_state gi hid = Ret s -> nl_order s.
Proof.
  intros Hbt H. unfold new_state in H. rewrite Hbt in H.
  pose proof (post_blind_order gi (seq 0 (num_players gi))
                (replicate MAX_PLAYERS 0, replicate MAX_PLAYERS 0, 0, replicate MAX_PLAYERS true)) as Hp.
  destruct (fold_left (post_blind gi) _ _) as [[[sp srs0] ms] folded].
  cbn [fst snd] in Hp. specialize (Hp (fun p => N.le_trans _ _ _ (N.eq_le_incl _ _ (get_replicate_zero _ _)) (N.le_refl 0))).
  unfold mbind, outcome_bind in H.
  destruct (N.ltb_spec 0 ms).
  - unfold mul_u32 in H. destruct (N.leb_spec (ms * 2) u32_max); [| discriminate].
    injection H as <-. split; [exact Hp | simpl; lia].
  - injection H as <-. split; [exact Hp | simpl; lia].
Qed.

Lemma raise_range_nl (gi : GameInfo) (s : GameState) (mn mx : N) :
  betting_type gi = NoLimit -> max_spent s <= min_no_limit_raise_to s ->
  raise_range gi s = (mn, mx) -> mx = 0 \/ max_spent s <= mn.
Proof.
  intros Hbt Hord. unfold raise_range. rewrite Hbt.
  repeat case_match; intros [= <- <-]; try (left; reflexivity); right;
    repeat match goal with
           | H : (_ <=? _)%N = false |- _ => apply N.leb_gt in H
           | H : (_ <? _)%N = true |- _ => apply N.ltb_lt in H
           end; lia.
Qed.

(** An accepted no-limit raise is to at least the largest spend. *)
Lemma valid_raise_nl (gi : GameInfo) (s : GameState) (r : N) :
  betting_type gi = NoLimit -> max_spent s <= min_no_limit_raise_to s ->
  is_valid_action gi s (Raise r) = true -> r = 0 \/ max_spent s <= r.
Proof.
  intros Hbt Hord Hv. unfold is_valid_action in Hv. rewrite Hbt in Hv.
  destruct (finished s); [discriminate |].
  destruct (_ <=? _)%nat; [discriminate |].
  destruct (raise_range gi s) as [mn mx] eqn:Hrr.
  apply raise_range_nl in Hrr; [| exact Hbt | exact Hord].
  apply andb_prop in Hv as [H1 H2]. apply N.leb_le in H1, H2.
  destruct Hrr; lia.
Qed.

Lemma apply_chips_nl_order (gi : GameInfo) (s new new' : GameState) (p : PlayerId) (a : Action) :
  betting_type gi = NoLimit -> nl_order s ->
  spent new = spent s -> max_spent new = max_spent s ->
  min_no_limit_raise_to new = min_no_limit_raise_to s ->
  is_valid_action gi s a = true ->
  apply_chips gi s new p a = Ret new' -> nl_order new'.
Proof.
  intros Hbt [Hsp Hord] Esp Ems Emn Hv Hc. unfold nl_order.
  destruct a as [| | r]; cbn [apply_chips] in Hc.
  - injection Hc as <-. simpl_state. rewrite Esp, Ems, Emn. split; assumption.
  - injection Hc as <-. simpl_state. rewrite Esp, Ems, Emn. split; [| exact Hord].
    intros q. rewrite get_insert. destruct (decide _); [case_cmp; lia | apply Hsp].
  - pose proof (valid_raise_nl gi s r Hbt Hord Hv) as Hr.
    rewrite Hbt in Hc. unfold mbind, outcome_bind, mul_u32, sub_u32 in Hc.
    destruct (N.leb_spec (r * 2) u32_max); [| discriminate].
    destruct (N.leb_spec (max_spent new) (r * 2)); [| discriminate].
    rewrite Ems in *.
    assert (Hms : max_spent s <= r) by (destruct Hr; lia).
    destruct (N.ltb_spec (min_no_limit_raise_to new) (r * 2 - max_spent s));
      injection Hc as <-; simpl_state; rewrite ?Esp, ?Emn in *.
    + split; [| lia]. intros q. rewrite get_insert. destruct (decide _); [lia |].
      specialize (Hsp q). lia.
    + split; [| lia]. intros q. rewrite get_insert. destruct (decide _); [lia |].
      specialize (Hsp q). lia.
Qed.

Lemma act_step_nl_order (gi : GameInfo) (s mid : GameState) (a : Action) :
  betting_type gi = NoLimit -> nl_order s -> act_step gi s a = Ret mid -> nl_order mid.
Proof.
  intros Hbt Ho H. unfold act_step in H.
  destruct (finished s) eqn:Hfin; [discriminate |].
  destruct (_ <=? _)%nat; [discriminate |].
  destruct (is_valid_action gi s a) eqn:Hv; [| discriminate]. simpl in H.
  unfold current_player in H. rewrite Hfin in H. simpl in H.
  unfold mbind, outcome_bind in H.
  destruct (apply_chips _ _ _ _ _) as [new' | | | |] eqn:Hc; try discriminate.
  apply (apply_chips_nl_order gi s) in Hc; [| exact Hbt | exact Ho | reflexivity ..| exact Hv].
  destruct (unwrap (next_player gi s)); try discriminate.
  injection H as <-. exact Hc.
Qed.

Lemma close_round_nl_order (gi : GameInfo) (mid s' : GameState) :
  nl_order mid -> close_round gi mid = Ret s' -> nl_order s'.
Proof.
  intros [Hsp Hord]. unfold close_round, mbind, outcome_bind, add_u32. intros H.
  repeat case_match; simplify_eq; split; simpl_state; try assumption; lia.
Qed.

Lemma apply_action_nl_order (gi : GameInfo) (s s' : GameState) (a : Action) :
  betting_type gi = NoLimit -> nl_order s -> apply_action_no_cards gi s a = Ret s' -> nl_order s'.
Proof.
  intros Hbt Ho H. unfold apply_action_no_cards, mbind, outcome_bind in H.
  destruct (act_step gi s a) as [mid | | | |] eqn:Hs; try discriminate.
  eapply close_round_nl_order; [| exact H]. eapply act_step_nl_order; eassumption.
Qed.

(** In a no-limit game, [GameState::new] starts, and every accepted action
    keeps, each player's spend at most [max_spent] and [max_spent] at most
    [min_no_limit_raise_to]. *)
Theorem nl_order_invariant :
  (forall gi hid s, betting_type gi = NoLimit -> new_state gi hid = Ret s -> nl_order s) /\
  (forall gi s a s', betting_type gi = NoLimit -> nl_order s ->
     apply_action_no_cards gi s a = Ret s' -> nl_order s').
Proof.
  split.
  - exact new_state_nl_order.
  - intros gi s a s'. apply apply_action_nl_order.
Qed.

Lemma nl_order_invariant_witness :
  nl_order (play holdem_info []) /\ nl_order (play holdem_info [Raise 6]).
Proof.
  assert (H0 : nl_order (play holdem_info [])).
  { apply (proj1 nl_order_invariant holdem_info 0); [reflexivity | eval_close]. }
  split; [exact H0 |].
  apply (proj2 nl_order_invariant holdem_info (play holdem_info []) (Raise 6)); [reflexivity | exact H0 |].
  eval_close.
Defined.

Lemma close_round_keeps (gi : GameInfo) (mid s' : GameState) :
  close_round gi mid = Ret s' ->
  spent s' = spent mid /\ stack_player s' = stack_player mid /\ max_spent s' = max_spent mid /\
  hand_id s' = hand_id mid /\ players_folded s' = players_folded mid.
Proof.
  unfold close_round, mbind, outcome_bind. intros H.
  repeat case_match; simplify_eq; repeat split.
Qed.

Lemma apply_action_monotone (gi : GameInfo) (s s' : GameState) (a : Action) :
  betting_type gi = NoLimit -> nl_order s -> stack_bound s ->
  apply_action_no_cards gi s a = Ret s' ->
  max_spent s <= max_spent s' /\ forall p, spent s @ p <= spent s' @ p.
Proof.
  intros Hbt [Hsp Hord] Hb H. unfold apply_action_no_cards, mbind, outcome_bind in H.
  destruct (act_step gi s a) as [mid | | | |] eqn:Hs; try discriminate.
  apply close_round_keeps in H as (Esp & _ & Ems & _).
  rewrite Esp, Ems. clear s' Esp Ems.
  unfold act_step in Hs.
  destruct (finished s) eqn:Hfin; [discriminate |].
  destruct (_ <=? _)%nat; [discriminate |].
  destruct (is_valid_action gi s a) eqn:Hv; [| discriminate]. simpl in Hs.
  unfold current_player in Hs. rewrite Hfin in Hs. simpl in Hs.
  unfold mbind, outcome_bind in Hs.
  destruct (apply_chips _ _ _ _ _) as [new' | | | |] eqn:Hc; try discriminate.
  destruct (unwrap (next_player gi s)); try discriminate.
  injection Hs as <-. simpl_state.
  destruct a as [| | r]; cbn [apply_chips] in Hc.
  - injection Hc as <-. simpl_state. split; [lia | intros p; lia].
  - injection Hc as <-. simpl_state. split; [lia |].
    intros p. rewrite get_insert. destruct (decide _) as [[<- _] | _]; [| lia].
    specialize (Hsp (active_player s)). specialize (Hb (active_player s)).
    case_cmp; lia.
  - pose proof (valid_raise_nl gi s r Hbt Hord Hv) as Hr.
    rewrite Hbt in Hc. unfold mbind, outcome_bind, mul_u32, sub_u32 in Hc. cbn -[N.le N.lt get insert list_le] in Hc.
    destruct (N.leb_spec (r * 2) u32_max); [| discriminate].
    destruct (N.leb_spec (max_spent s) (r * 2)); [| discriminate].
    assert (Hms : max_spent s <= r) by (destruct Hr; lia).
    destruct (N.ltb_spec (min_no_limit_raise_to s) (r * 2 - max_spent s));
      injection Hc as <-; simpl_state;
      (split; [lia |]); intros p; rewrite get_insert;
      (destruct (decide _); [specialize (Hsp p); lia | lia]).
Qed.

(** In a no-limit game, from a state where the no-limit order holds and
    no spend exceeds its stack (as in every state [GameState::new] builds
    with blinds within the stacks), no sequence of accepted actions lowers
    [max_spent] or any player's spend. *)
Theorem nl_apply_actions_monotone (gi : GameInfo) (s s' : GameState) (l : list Action) :
  betting_type gi = NoLimit -> nl_order s -> stack_bound s ->
  apply_actions gi s l = Ret s' ->
  max_spent s <= max_spent s' /\ forall p, spent s @ p <= spent s' @ p.
Proof.
  intros Hbt. revert s. induction l as [| a l IH]; intros s Ho Hb H; cbn [apply_actions] in H.
  - injection H as <-. split; [lia | intros p; lia].
  - unfold mbind, outcome_bind at 1 in H.
    destruct (apply_action_no_cards gi s a) as [s1 | | | |] eqn:Hs1; try discriminate.
    pose proof (apply_action_monotone gi s s1 a Hbt Ho Hb Hs1) as [Hm1 Hp1].
    assert (Ho1 : nl_order s1) by (eapply apply_action_nl_order; eassumption).
    assert (Hb1 : stack_bound s1).
    { unfold apply_action_no_cards, mbind, outcome_bind in Hs1.
      destruct (act_step gi s a) as [mid | | | |] eqn:Hs; try discriminate.
      apply act_step_bound in Hs as [Hmid _]; [| exact Hb].
      apply close_round_same in Hs1 as [Hsp Hst].
      intros p. rewrite Hsp, Hst. apply Hmid. }
    destruct (IH s1 Ho1 Hb1 H) as [Hm2 Hp2].
    split; [lia | intros p; specialize (Hp1 p); specialize (Hp2 p); lia].
Qed.

Lemma nl_apply_actions_monotone_witness :
  max_spent (play holdem_info []) <= max_spent (play holdem_info [Raise 6; Call; Call]) /\
  forall p, spent (play holdem_info []) @ p <= spent (play holdem_info [Raise 6; Call; Call]) @ p.
Proof.
  assert (Hnew : new_state holdem_info 0 = Ret (play holdem_info [])) by (vm_compute; reflexivity).
  apply (nl_apply_actions_monotone holdem_info (play holdem_info []) _ [Raise 6; Call; Call]).
  - reflexivity.
  - exact (new_state_nl_order holdem_info 0 _ eq_refl Hnew).
  - apply (new_state_stack_bound holdem_info 0); [reflexivity | eval_close | | exact Hnew].
    intros i Hi. cbn in Hi. do 2 (destruct i as [| i]; [eval_close |]). lia.
  - vm_compute. reflexivity.
Defined.

(** ** What an action never changes *)

Lemma act_step_keeps (gi : GameInfo) (s mid : GameState) (a : Action) :
  act_step gi s a = Ret mid ->
  hand_id mid = hand_id s /\ stack_player mid = stack_player s /\
  forall p, has_folded s p = true -> has_folded mid p = true.
Proof.
  intros H. unfold act_step in H.
  destruct (finished s) eqn:Hfin; [discriminate |].
  destruct (_ <=? _)%nat; [discriminate |].
  destruct (is_valid_action gi s a) eqn:Hv; [| discriminate]. simpl in H.
  unfold current_player in H. rewrite Hfin in H. simpl in H.
  unfold mbind, outcome_bind in H.
  destruct (apply_chips _ _ _ _ _) as [new' | | | |] eqn:Hc; try discriminate.
  destruct (unwrap (next_player gi s)); try discriminate.
  injection H as <-. unfold has_folded. simpl_state.
  destruct a as [| | r]; cbn [apply_chips] in Hc.
  - injection Hc as <-. simpl_state. split; [reflexivity | split; [reflexivity |]].
    intros p Hp. rewrite get_insert. destruct (decide _); [reflexivity | exact Hp].
  - injection Hc as <-. simpl_state. auto.
  - unfold mbind, outcome_bind in Hc.
    destruct (betting_type gi).
    + destruct (add_u32 _ _) as [t | | | |]; try discriminate.
      cbn -[N.le N.lt get insert list_le] in Hc.
      destruct (_ <? _); injection Hc as <-; simpl_state; auto.
    + destruct (mul_u32 _ _); try discriminate.
      destruct (sub_u32 _ _); try discriminate.
      cbn -[N.le N.lt get insert list_le] in Hc.
      destruct (_ <? _); injection Hc as <-; simpl_state; auto.
Qed.

(** No sequence of accepted actions changes the hand id or the stacks,
    and a player who has folded stays folded. *)
Theorem apply_actions_keeps (gi : GameInfo) (s s' : GameState) (l : list Action) :
  apply_actions gi s l = Ret s' ->
  hand_id s' = hand_id s /\ stack_player s' = stack_player s /\
  forall p, has_folded s p = true -> has_folded s' p = true.
Proof.
  revert s. induction l as [| a l IH]; intros s H; cbn [apply_actions] in H.
  - injection H as <-. auto.
  - unfold mbind, outcome_bind at 1 in H.
    destruct (apply_action_no_cards gi s a) as [s1 | | | |] eqn:Hs1; try discriminate.
    unfold apply_action_no_cards, mbind, outcome_bind in Hs1.
    destruct (act_step gi s a) as [mid | | | |] eqn:Hs; try discriminate.
    apply act_step_keeps in Hs as (Eh & Est & Ef).
    apply close_round_keeps in Hs1 as (_ & Est1 & _ & Eh1 & Ef1).
    apply IH in H as (Eh2 & Est2 & Ef2).
    split; [congruence | split; [congruence |]].
    intros p Hp. apply Ef2. unfold has_folded. rewrite Ef1. apply Ef. exact Hp.
Qed.

Lemma apply_actions_keeps_witness :
  apply_actions fold_info (play fold_info []) [Raise 10; Fold] = Ret fold_state /\
  stack_player fold_state = stack_player (play fold_info []) /\
  has_folded fold_state 0%nat = true.
Proof.
  assert (H : apply_actions fold_info (play fold_info []) [Raise 10; Fold] = Ret fold_state)
    by (vm_compute; reflexivity).
  split; [exact H | split; [exact (proj1 (proj2 (apply_actions_keeps _ _ _ _ H))) |]].
  vm_compute. reflexivity.
Defined.

(** ** [GameState::next_player] *)

Lemma next_player_loop_ret (n : nat) (q : nat -> bool) (p fuel r : nat) :
  next_player_loop n q p fuel = Ret r ->
  exists k, (1 <= k <= fuel)%nat /\ r = ((p + k) mod n)%nat /\ q r = true /\
    forall j, (1 <= j < k)%nat -> q ((p + j) mod n)%nat = false.
Proof.
  revert p. induction fuel as [| f IH]; intros p H; cbn [next_player_loop] in H; [discriminate |].
  destruct (q ((p + 1) mod n)%nat) eqn:Hq.
  - injection H as <-. exists 1%nat. split; [lia | split; [reflexivity | split; [exact Hq |]]].
    intros j Hj. lia.
  - apply IH in H as (k & Hk & -> & Hr & Hbefore).
    replace (((p + 1) mod n + k) mod n)%nat with ((p + S k) mod n)%nat in *
      by (rewrite Nat.Div0.add_mod_idemp_l; f_equal; lia).
    exists (S k). split; [lia |]. split; [reflexivity |]. split; [exact Hr |].
    intros j Hj. destruct (Nat.eq_dec j 1%nat) as [-> | Hj1]; [exact Hq |].
    specialize (Hbefore (j - 1)%nat ltac:(lia)).
    rewrite Nat.Div0.add_mod_idemp_l in Hbefore.
    replace (p + 1 + (j - 1))%nat with (p + j)%nat in Hbefore by lia. exact Hbefore.
Qed.

Lemma next_player_loop_hang (n : nat) (q : nat -> bool) (p fuel : nat) :
  next_player_loop n q p fuel = Hang <->
  forall j, (1 <= j <= fuel)%nat -> q ((p + j) mod n)%nat = false.
Proof.
  revert p. induction fuel as [| f IH]; intros p; cbn [next_player_loop].
  - split; [intros _ j Hj; lia | reflexivity].
  - destruct (q ((p + 1) mod n)%nat) eqn:Hq.
    + split; [discriminate |]. intros H. rewrite (H 1%nat ltac:(lia)) in Hq. discriminate.
    + rewrite IH. split.
      * intros H j Hj. destruct (Nat.eq_dec j 1%nat) as [-> | Hj1]; [exact Hq |].
        specialize (H (j - 1)%nat ltac:(lia)).
        rewrite Nat.Div0.add_mod_idemp_l in H.
        replace (p + 1 + (j - 1))%nat with (p + j)%nat in H by lia. exact H.
      * intros H j Hj. rewrite Nat.Div0.add_mod_idemp_l.
        replace (p + 1 + j)%nat with (p + S j)%nat by lia. apply H. lia.
Qed.

Lemma mod_cover (n a r : nat) :
  n <> 0%nat -> (r < n)%nat -> exists j, (1 <= j <= n)%nat /\ ((a + j) mod n)%nat = r.
Proof.
  intros Hn Hr. pose proof (Nat.div_mod_eq a n) as Ha. pose proof (Nat.mod_upper_bound a n Hn) as Hb.
  destruct (Nat.ltb_spec (a mod n) r).
  - exists (r - a mod n)%nat. split; [lia |].
    symmetry. apply (Nat.mod_unique _ _ (a / n)); [exact Hr | lia].
  - exists (n - (a mod n - r))%nat. split; [lia |].
    symmetry. apply (Nat.mod_unique _ _ (a / n + 1)); [exact Hr | lia].
Qed.

Lemma next_player_loop_cases (n : nat) (q : nat -> bool) (p fuel : nat) :
  next_player_loop n q p fuel = Hang \/ exists r, next_player_loop n q p fuel = Ret r.
Proof.
  revert p. induction fuel as [| f IH]; intros p; cbn [next_player_loop]; [now left |].
  destruct (q ((p + 1) mod n)%nat); [right; eexists; reflexivity | apply IH].
Qed.

(** [next_player] of a state that is not finished, with at least one
    player: it loops forever exactly when no player can act (every player
    has folded or is all-in); otherwise it returns a player, and that
    player is the first one after the active one, in seat order and
    wrapping around, who can act. *)
Theorem next_player_spec (gi : GameInfo) (s : GameState) :
  finished s = false -> num_players gi <> 0%nat ->
  (next_player gi s = Hang <-> forall p, (p < num_players gi)%nat -> can_act s p = false) /\
  ((exists q, (q < num_players gi)%nat /\ can_act s q = true) -> exists p, next_player gi s = Ret p) /\
  forall p, next_player gi s = Ret p ->
    (p < num_players gi)%nat /\ can_act s p = true /\
  exists k, (1 <= k <= num_players gi)%nat /\ p = ((active_player s + k) mod num_players gi)%nat /\
  forall j, (1 <= j < k)%nat -> can_act s ((active_player s + j) mod num_players gi)%nat = false.
Proof.
  intros Hfin Hn. unfold next_player. rewrite Hfin.
  destruct (Nat.eqb_spec (num_players gi) 0) as [| _]; [contradiction |].
  assert (Hiff : next_player_loop (num_players gi) (can_act s) (active_player s) (num_players gi) = Hang <->
                 forall p, (p < num_players gi)%nat -> can_act s p = false).
  { rewrite next_player_loop_hang. split.
    + intros H p Hp. destruct (mod_cover (num_players gi) (active_player s) p Hn Hp) as (j & Hj & <-).
      apply H. exact Hj.
    + intros H j Hj. apply H. apply Nat.mod_upper_bound. exact Hn. }
  split; [exact Hiff | split].
  - intros (q & Hq & Hcq).
    destruct (next_player_loop_cases (num_players gi) (can_act s) (active_player s) (num_players gi))
      as [Hh | Hr]; [| exact Hr].
    rewrite (proj1 Hiff Hh q Hq) in Hcq. discriminate.
  - intros p H. apply next_player_loop_ret in H as (k & Hk & Hp & Hq & Hbefore).
    split; [rewrite Hp; apply Nat.mod_upper_bound; exact Hn |].
    split; [exact Hq |]. exists k. auto.
Qed.

Lemma next_player_spec_witness :
  next_player allin_info allin_state = Hang /\
  (exists p, next_player holdem_info (play holdem_info []) = Ret p) /\
  (next_player holdem_info (play holdem_info []) = Ret 0%nat /\
  can_act (play holdem_info []) 0%nat = true).
Proof.
  assert (Hf1 : finished allin_state = false) by (vm_compute; reflexivity).
  assert (Hf2 : finished (play holdem_info []) = false) by (vm_compute; reflexivity).
  split; [| split].
  - apply (proj1 (next_player_spec allin_info allin_state Hf1 ltac:(vm_compute; discriminate))).
    intros p Hp. cbn in Hp. do 2 (destruct p as [| p]; [vm_compute; reflexivity |]). lia.
  - apply (proj1 (proj2 (next_player_spec holdem_info (play holdem_info []) Hf2
                           ltac:(vm_compute; discriminate)))).
    exists 0%nat. split; [vm_compute; lia | vm_compute; reflexivity].
  - assert (Hr : next_player holdem_info (play holdem_info []) = Ret 0%nat) by (vm_compute; reflexivity).
    split; [exact Hr |].
    exact (proj1 (proj2 (proj2 (proj2 (next_player_spec holdem_info (play holdem_info []) Hf2
                                  ltac:(vm_compute; discriminate))) 0%nat Hr))).
Defined.

(** [apply_action_no_cards] loops forever on a call or a fold accepted in a
    state where no player can act (each has folded or is all-in), as when
    the blinds put every player all-in: it asks [next_player] for the
    player after the active one before it looks at the end of the round. *)
Theorem apply_action_no_cards_hangs (gi : GameInfo) (s : GameState) (a : Action) :
  finished s = false -> (get 0%nat (num_actions s) (round s) < MAX_NUM_ACTIONS)%nat ->
  is_valid_action gi s a = true -> a = Call \/ a = Fold ->
  num_players gi <> 0%nat ->
  (forall p, (p < num_players gi)%nat -> can_act s p = false) ->
  apply_action_no_cards gi s a = Hang.
Proof.
  intros Hfin Hna Hv Ha Hn Hnone.
  assert (Hnp : next_player gi s = Hang).
  { unfold next_player. rewrite Hfin.
    destruct (Nat.eqb_spec (num_players gi) 0) as [| _]; [contradiction |].
    apply next_player_loop_hang. intros j Hj. apply Hnone, Nat.mod_upper_bound. exact Hn. }
  unfold apply_action_no_cards, act_step. rewrite Hfin, Hv.
  destruct (Nat.leb_spec MAX_NUM_ACTIONS (get 0%nat (num_actions s) (round s))); [lia |].
  unfold current_player. rewrite Hfin. cbn [negb unwrap].
  unfold mbind, outcome_bind. rewrite Hnp.
  destruct Ha as [-> | ->]; reflexivity.
Qed.

Lemma apply_action_no_cards_hangs_witness :
  apply_action_no_cards allin_info allin_state Call = Hang.
Proof.
  apply apply_action_no_cards_hangs.
  - vm_compute. reflexivity.
  - vm_compute. lia.
  - vm_compute. reflexivity.
  - left. reflexivity.
  - vm_compute. discriminate.
  - intros p Hp. cbn in Hp. do 2 (destruct p as [| p]; [vm_compute; reflexivity |]). lia.
Defined.

(** ** [GameState::pot_total] and the player counts *)

Lemma pot_total_loop_eq (s : GameState) (l : list nat) (t : N) :
  t <= u32_max ->
  pot_total_loop s l t =
    if t + spent_total s l <=? u32_max then Ret (t + spent_total s l)
    else Panic "attempt to add with overflow".
Proof.
  unfold spent_total. revert t. induction l as [| i l IH]; intros t Ht; cbn [pot_total_loop foldr].
  - rewrite N.add_0_r. destruct (N.leb_spec t u32_max); [reflexivity | lia].
  - unfold mbind, outcome_bind, add_u32.
    destruct (N.leb_spec (t + spent s @ i) u32_max).
    + rewrite IH by exact H. rewrite N.add_assoc. reflexivity.
    + destruct (N.leb_spec (t + (spent s @ i + foldr (fun i acc => spent s @ i + acc) 0 l)) u32_max);
        [lia | reflexivity].
Qed.

(** [pot_total] is the sum of the spends of the [num_players] players; it
    panics when that sum does not fit in a [u32]. *)
Theorem pot_total_eq (gi : GameInfo) (s : GameState) :
  pot_total gi s =
    if spent_total s (seq 0 (num_players gi)) <=? u32_max
    then Ret (spent_total s (seq 0 (num_players gi)))
    else Panic "attempt to add with overflow".
Proof.
  unfold pot_total. rewrite pot_total_loop_eq by (unfold u32_max; lia). reflexivity.
Qed.

Lemma filter_disjoint_length (P Q : nat -> Prop) `{forall x, Decision (P x)} `{forall x, Decision (Q x)}
    (l : list nat) :
  (forall x, P x -> Q x -> False) ->
  (length (filter P l) + length (filter Q l) <= length l)%nat.
Proof.
  intros Hd. induction l as [| x l IH]; [simpl; lia |].
  rewrite !filter_cons. simpl.
  destruct (decide (P x)), (decide (Q x)); simpl; try lia.
  exfalso. eapply Hd; eassumption.
Qed.

(** No player counts both as one who can still act and as one who has
    folded: [num_active_players + num_folded] is at most [num_players]. *)
Theorem active_plus_folded_le (gi : GameInfo) (s : GameState) :
  (num_active_players gi s + num_folded gi s <= num_players gi)%nat.
Proof.
  unfold num_active_players, num_folded.
  rewrite <- (length_seq (num_players gi) 0) at 3.
  apply filter_disjoint_length.
  intros p Ha Hf. unfold can_act in Ha. rewrite Hf in Ha. discriminate.
Qed.

(** ** [GameState::new] in closed form *)

Lemma fold_insert_get_gen {A} (d : A) (f : nat -> A) (m a : nat) (l : list A) (p : nat) :
  (a + m <= length l)%nat ->
  get d (fold_left (fun l i => <[i := f i]> l) (seq a m) l) p =
  if decide (a <= p < a + m)%nat then f p else get d l p.
Proof.
  revert a l. induction m as [| m IH]; intros a l Hlen; simpl.
  - destruct (decide _); [lia | reflexivity].
  - rewrite IH by (rewrite length_insert; lia). rewrite get_insert.
    repeat destruct (decide _) as [? | ?]; try lia; try reflexivity.
    match goal with H : _ = _ /\ _ |- _ => destruct H as [-> _] end; reflexivity.
Qed.

Lemma post_blind_folded (gi : GameInfo) (l : list nat) acc :
  (fold_left (post_blind gi) l acc).2 = fold_left (fun f i => <[i := false]> f) l acc.2.
Proof.
  revert acc. induction l as [| i l IH]; intros [[[sp srs0] ms] folded]; [reflexivity |].
  simpl. now rewrite IH.
Qed.

Lemma post_blind_max (gi : GameInfo) (m a : nat) acc :
  let r := (fold_left (post_blind gi) (seq a m) acc).1.2 in
  acc.1.2 <= r /\ (forall i, (a <= i < a + m)%nat -> blinds gi @ i <= r) /\
  (r = acc.1.2 \/ exists i, (a <= i < a + m)%nat /\ r = blinds gi @ i).
Proof.
  revert a acc. induction m as [| m IH]; intros a [[[sp srs0] ms] folded]; cbn zeta.
  - simpl. split; [lia | split; [intros i Hi; lia | left; reflexivity]].
  - cbn [seq fold_left].
    destruct (IH (S a) (post_blind gi (sp, srs0, ms, folded) a)) as (H1 & H2 & H3).
    cbn [post_blind fst snd] in *.
    set (r := (fold_left (post_blind gi) (seq (S a) m) _).1.2) in *.
    destruct (N.ltb_spec ms (blinds gi @ a)) as [Hlt | Hge].
    + split; [lia |]. split.
      * intros i Hi. destruct (Nat.eq_dec i a) as [-> | Hne]; [exact H1 | apply H2; lia].
      * right. destruct H3 as [-> | (i & Hi & ->)]; [exists a; split; [lia | reflexivity] |].
        exists i. split; [lia | reflexivity].
    + split; [exact H1 |]. split.
      * intros i Hi. destruct (Nat.eq_dec i a) as [-> | Hne]; [lia | apply H2; lia].
      * destruct H3 as [-> | (i & Hi & ->)]; [left; reflexivity |].
        right. exists i. split; [lia | reflexivity].
Qed.

(** [GameState::new] (with at most [MAX_PLAYERS] players and starting
    stacks) starts round 0 of an unfinished hand with the given id and
    [first_player[0]] to act; each of the [num_players] players has posted
    their blind and is in the hand, every other seat is empty and counts as
    folded, the stacks are the starting stacks, [max_spent] is the largest
    blind (0 without players), and [min_no_limit_raise_to] is twice that in
    a no-limit game (1 when it is 0) and 0 in a limit game. *)
Theorem new_state_spec (gi : GameInfo) (hid : N) (s : GameState) :
  (num_players gi <= MAX_PLAYERS)%nat -> (length (starting_stacks gi) <= MAX_PLAYERS)%nat ->
  new_state gi hid = Ret s ->
  hand_id s = hid /\ round s = 0%nat /\ finished s = false /\
  active_player s = get 0%nat (first_player gi) 0 /\
  (forall p, spent s @ p = if (p <? num_players gi)%nat then blinds gi @ p else 0) /\
  (forall p, has_folded s p = negb (p <? num_players gi)%nat) /\
  (forall p, stack_player s @ p = starting_stacks gi @ p) /\
  (forall i, (i < num_players gi)%nat -> blinds gi @ i <= max_spent s) /\
  ((num_players gi = 0%nat /\ max_spent s = 0) \/
   exists i, (i < num_players gi)%nat /\ max_spent s = blinds gi @ i) /\
  min_no_limit_raise_to s = match betting_type gi with
                            | NoLimit => if 0 <? max_spent s then 2 * max_spent s else 1
                            | Limit => 0
                            end.
Proof.
  intros Hn Hst H. unfold new_state in H.
  set (acc0 := (replicate MAX_PLAYERS 0, replicate MAX_PLAYERS 0, 0, replicate MAX_PLAYERS true)) in H.
  pose proof (post_blind_spent gi (seq 0 (num_players gi)) acc0) as Hsp.
  pose proof (post_blind_folded gi (seq 0 (num_players gi)) acc0) as Hfo.
  pose proof (post_blind_max gi (num_players gi) 0 acc0) as Hms. cbv zeta in Hms.
  destruct (fold_left (post_blind gi) _ _) as [[[sp srs0] ms] folded].
  cbn [fst snd] in Hsp, Hfo, Hms. unfold acc0 in Hsp, Hfo, Hms. cbn [fst snd] in Hsp, Hfo, Hms.
  assert (Hret : exists mn, s = {| hand_id := hid; max_spent := ms; min_no_limit_raise_to := mn;
      spent := sp;
      stack_player := fold_left set_stack (zip (seq 0 (length (starting_stacks gi))) (starting_stacks gi))
                        (replicate MAX_PLAYERS 0);
      sum_round_spent := <[0%nat := srs0]> (replicate MAX_ROUNDS (replicate MAX_PLAYERS 0));
      action := replicate MAX_ROUNDS (replicate MAX_NUM_ACTIONS None);
      acting_player := replicate MAX_ROUNDS (replicate MAX_NUM_ACTIONS 0%nat);
      active_player := get 0%nat (first_player gi) 0;
      num_actions := replicate MAX_ROUNDS 0%nat; round := 0; finished := false;
      players_folded := folded |} /\
      mn = match betting_type gi with
           | NoLimit => if 0 <? ms then 2 * ms else 1
           | Limit => 0
           end).
  { unfold mbind, outcome_bind in H. destruct (betting_type gi).
    - injection H as <-. eexists; split; reflexivity.
    - destruct (N.ltb_spec 0 ms).
      + unfold mul_u32 in H. destruct (N.leb_spec (ms * 2) u32_max); [| discriminate].
        injection H as <-. eexists; split; [reflexivity | lia].
      + injection H as <-. eexists; split; reflexivity. }
  destruct Hret as (mn & -> & Hmn). cbn [hand_id round finished active_player spent has_folded
    players_folded stack_player max_spent min_no_limit_raise_to].
  split; [reflexivity | split; [reflexivity | split; [reflexivity | split; [reflexivity |]]]].
  split.
  { intros p. subst sp. rewrite fold_insert_get by (rewrite length_replicate; lia).
    rewrite get_replicate_zero. destruct (decide _), (Nat.ltb_spec p (num_players gi)); lia. }
  split.
  { intros p. unfold has_folded. cbn [players_folded]. subst folded.
    rewrite (fold_insert_get_gen true (fun _ => false)) by (rewrite length_replicate; lia).
    destruct (decide _), (Nat.ltb_spec p (num_players gi)); try lia; try reflexivity.
    unfold get. destruct (decide (p < MAX_PLAYERS)%nat).
    - rewrite lookup_replicate_2 by exact l. reflexivity.
    - rewrite (proj1 (lookup_replicate_None MAX_PLAYERS true p)); [reflexivity | lia]. }
  split.
  { intros p. rewrite fold_set_stack_get by (simpl; unfold MAX_PLAYERS in Hst; lia).
    rewrite Nat.sub_0_r, get_replicate_zero.
    destruct (decide _); [reflexivity |].
    unfold get. rewrite (proj2 (lookup_ge_None (starting_stacks gi) p)); [reflexivity | lia]. }
  destruct Hms as (_ & Hle & Hor).
  split; [intros i Hi; apply Hle; lia |].
  split; [| exact Hmn].
  destruct Hor as [-> | (i & Hi & ->)].
  - destruct (Nat.eq_dec (num_players gi) 0%nat) as [E | E]; [left; split; [exact E | reflexivity] |].
    right. exists 0%nat. split; [lia |]. specialize (Hle 0%nat ltac:(lia)). lia.
  - right. exists i. split; [lia | reflexivity].
Qed.

Lemma new_state_spec_witness :
  new_state holdem_info 7 = Ret (ret_state (new_state holdem_info 7)) /\
  spent (ret_state (new_state holdem_info 7)) @ 1 = 2 /\
  has_folded (ret_state (new_state holdem_info 7)) 5%nat = true.
Proof.
  assert (H : new_state holdem_info 7 = Ret (ret_state (new_state holdem_info 7)))
    by (vm_compute; reflexivity).
  destruct (new_state_spec holdem_info 7 _ ltac:(vm_compute; lia) ltac:(vm_compute; lia) H)
    as (_ & _ & _ & _ & Hsp & Hf & _).
  split; [exact H |]. split.
  - rewrite Hsp. vm_compute. reflexivity.
  - rewrite Hf. vm_compute. reflexivity.
Defined.
